(** * nativescript-canvas-interface: the bridge between a NativeScript host
      and a web-view canvas

    The development embeds the two classes of the plugin:

    - [Host]: [NativescriptCanvasInterface] (the host-side proxy:
      [setImage], [createImage], [_resolveImageSourceAndFormat],
      [_callJSFunction], [_getBase64StrFromImageSource],
      [_getImageSourceFromBase64Str]);
    - [Web]: [NSCanvasInterface] of www/nativescript-canvas-interface.ts
      (the web-view dispatcher: the instance table, [_callCanvasReqHandler],
      [_setImage], [_createImage]) together with the part of the JavaScript
      run-time the dispatcher relies on: promises with their reaction lists,
      the microtask queue, image elements with their [onload] callback.

    JavaScript objects used as dictionaries ([_canvasInterfaceInstanceMap],
    [canvasReqHandlers]) are finite maps over their own keys, read through
    their prototype chain: a key that is not an own key is looked up in
    [Object.prototype] as the engine sets it up (pages that extend
    [Object.prototype] are not represented), and the assignment to the key
    [__proto__] replaces the prototype of the table as its setter does.
    Strings are sequences of code units below 256. *)

From Stdlib Require Import ZArith Ascii String List.
From stdpp Require Import gmap strings list fin_maps.

Set Warnings "-register-all".
Open Scope string_scope.

(** ** JavaScript values *)

(** Objects that are not plain data: handles of the browser (web view) and
    of the NativeScript run-time (host). *)
Inductive Native :=
| NPromise (p : nat)                       (* a Promise *)
| NImageElement (i : nat)                  (* an HTMLImageElement *)
| NCanvas (el : nat)                       (* an HTMLCanvasElement *)
| NContext2D (el : nat)                    (* canvas.getContext('2d') *)
| NImageView (imageSource : option nat)    (* ui/image Image, with its imageSource property *)
| NImageSource (h : nat)                   (* image-source ImageSource *)
| NWindow.                                 (* the global object of the web view *)

Inductive JsVal :=
| VUndefined
| VNull
| VBool (b : bool)
| VNum (n : Z)          (* a number other than NaN; only whether it is 0 matters here *)
| VNaN
| VStr (s : string)
| VArr (items : list JsVal)
| VObj (props : list (string * JsVal))
| VNative (o : Native).

(** ToBoolean: what [if (v)], [!v] and [v || w] test. *)
Definition truthy (v : JsVal) : bool :=
  match v with
  | VUndefined | VNull | VNaN => false
  | VBool b => b
  | VNum n => negb (n =? 0)%Z
  | VStr s => negb (String.eqb s "")
  | VArr _ | VObj _ | VNative _ => true
  end.

Fixpoint assoc (k : string) (props : list (string * JsVal)) : JsVal :=
  match props with
  | [] => VUndefined
  | (k', v) :: rest => if String.eqb k k' then v else assoc k rest
  end.

(** A property read [v.k] on a value that is neither [undefined] nor
    [null]: own data properties of plain objects, and the [then] method of
    promises (any truthy value stands for the function). *)
Definition get (v : JsVal) (k : string) : JsVal :=
  match v with
  | VObj props => assoc k props
  | VNative (NPromise _) => if String.eqb k "then" then VBool true else VUndefined
  | _ => VUndefined
  end.

(** [a || b] *)
Definition js_or (a b : JsVal) : JsVal := if truthy a then a else b.

(** A completion: normal, or an exception thrown. *)
Inductive Completion (A : Type) :=
| Normal (a : A)
| Throw (e : JsVal).
Arguments Normal {A} a.
Arguments Throw {A} e.

(** The state of a promise. *)
Inductive PState :=
| Pending
| Fulfilled (v : JsVal)
| Rejected (e : JsVal).

Definition TypeError (msg : string) : JsVal :=
  VObj [("name", VStr "TypeError"); ("message", VStr msg)].

(** ** String.prototype methods used by the plugin *)
Module Js.

(** [s.split(",")] for a one-character separator: the pieces between
    separators; never empty. *)
Fixpoint split (sep : ascii) (s : string) : list string :=
  match s with
  | EmptyString => [EmptyString]
  | String c rest =>
      if Ascii.eqb c sep then EmptyString :: split sep rest
      else match split sep rest with
           | [] => [String c EmptyString]
           | piece :: pieces => String c piece :: pieces
           end
  end.

(** [s.lastIndexOf(c)]: index of the last occurrence, [-1] when there is none. *)
Fixpoint lastIndexOf_from (c : ascii) (s : string) (i : Z) (found : Z) : Z :=
  match s with
  | EmptyString => found
  | String a rest => lastIndexOf_from c rest (i + 1) (if Ascii.eqb a c then i else found)
  end.

Definition lastIndexOf (s : string) (c : ascii) : Z := lastIndexOf_from c s 0 (-1).

Definition length (s : string) : Z := Z.of_nat (String.length s).

(** [s.substring(a, b)]: both indices clamped to [0, length], swapped when
    [a > b]. *)
Definition substring (s : string) (a b : Z) : string :=
  let clamp x := Z.max 0 (Z.min x (length s)) in
  let lo := Z.min (clamp a) (clamp b) in
  let hi := Z.max (clamp a) (clamp b) in
  String.substring (Z.to_nat lo) (Z.to_nat (hi - lo)) s.

(** White space removed by [trim] (tab, line feed, vertical tab, form feed,
    carriage return, space, no-break space). *)
Definition is_white (c : ascii) : bool :=
  let n := nat_of_ascii c in
  (((9 <=? n) && (n <=? 13)) || (n =? 32) || (n =? 160))%nat.

Fixpoint trimStart (s : string) : string :=
  match s with
  | EmptyString => EmptyString
  | String c rest => if is_white c then trimStart rest else s
  end.

(** Drops the trailing white space. *)
Fixpoint trimEnd (s : string) : string :=
  match s with
  | EmptyString => EmptyString
  | String c rest =>
      match trimEnd rest with
      | EmptyString => if is_white c then EmptyString else String c EmptyString
      | t => String c t
      end
  end.

Definition trim (s : string) : string := trimEnd (trimStart s).

End Js.

(** ** The host side: class NativescriptCanvasInterface *)
Module Host.

(** The functions of the [image-source] module and of the [ImageSource]
    class the proxy calls; they belong to the NativeScript run-time. *)
Record ImageSourceModule := {
  fromFile : string -> option nat;          (* an ImageSource, or null *)
  fromBase64 : JsVal -> Completion JsVal;   (* called with a string or undefined; may throw *)
  toBase64String : nat -> string -> string  (* imageSource.toBase64String(format) *)
}.

(** A call handed to [webViewInterface.callJSFunction]; its two callbacks
    are [onSuccess] and [onError] below. *)
Record TransportCall := { functionName : string; callArgs : list JsVal }.

(** The transport: the calls handed to it so far, oldest first. *)
Abbreviation Transport := (list TransportCall).

(** What a method of the proxy returns: [Promise.reject(reason)], or the
    promise built by [_callJSFunction], settled by the callbacks of the
    [n]-th call on the transport. *)
Inductive HostPromise :=
| PromiseReject (reason : JsVal)
| PromiseOfCall (n : nat).

Record Proxy := { canvasId : string }.

Record Resolved := { imageSource : option nat; format : option string }.

Section WithRuntime.
Variable rt : ImageSourceModule.

(** [_resolveImageSourceAndFormat(image, format?)] *)
Definition _resolveImageSourceAndFormat (image : JsVal) (fmt : option string) : Resolved :=
  let r :=
    match image with
    | VStr path =>
        if truthy image && (0 <? Js.length (Js.trim path))%Z then
          {| imageSource := fromFile rt path;
             format :=
               match fmt with
               | Some f => if String.eqb f "" then
                             Some (Js.substring path (Js.lastIndexOf path "."%char + 1) (Js.length path))
                           else Some f
               | None => Some (Js.substring path (Js.lastIndexOf path "."%char + 1) (Js.length path))
               end |}
        else {| imageSource := None; format := fmt |}
    | _ => {| imageSource := None; format := fmt |}
    end in
  (* typeof image === 'object' *)
  match image with
  | VNative (NImageView src) => {| imageSource := src; format := format r |}
  | VNative (NImageSource h) => {| imageSource := Some h; format := format r |}
  | _ => r
  end.

(** [_getBase64StrFromImageSource(imageSource, format?)] *)
Definition _getBase64StrFromImageSource (src : nat) (fmt : option string) : string :=
  match fmt with
  | Some f =>
      if String.eqb f "jpeg" || String.eqb f "jpg" then
        "data:image/jpeg;base64," ++ toBase64String rt src "jpeg"
      else "data:image/png;base64," ++ toBase64String rt src "png"
  | None => "data:image/png;base64," ++ toBase64String rt src "png"
  end.

(** The local [str] of [_getImageSourceFromBase64Str]:
    [base64ImageStr.split(",")[1]], [undefined] when there is no such piece. *)
Definition payload (base64ImageStr : string) : JsVal :=
  match Js.split ","%char base64ImageStr !! 1%nat with
  | Some piece => VStr piece
  | None => VUndefined
  end.

(** [_getImageSourceFromBase64Str(base64ImageStr)]; a value without a
    [split] method raises a TypeError. *)
Definition _getImageSourceFromBase64Str (base64ImageStr : JsVal) : Completion JsVal :=
  match base64ImageStr with
  | VStr s => fromBase64 rt (payload s)
  | _ => Throw (TypeError "base64ImageStr.split is not a function")
  end.

(** The success callback [_callJSFunction] hands to the transport: the
    value given to [resolve]. *)
Definition onSuccess (response : JsVal) : Completion JsVal :=
  if truthy response then
    match (if truthy (get response "_strImage")
           then _getImageSourceFromBase64Str (get response "_strImage")
           else Normal VNull) with
    | Normal image =>
        Normal (VObj [("image", image); ("data", js_or (get response "data") VNull)])
    | Throw e => Throw e
    end
  else Normal VUndefined.

(** What the transport eventually does with a call. *)
Inductive TransportOutcome :=
| Success (response : JsVal)
| Failure (error : JsVal).

(** State of the promise of [_callJSFunction] once the transport has run
    one of the two callbacks; an exception inside the success callback
    leaves it pending. *)
Definition settle (o : TransportOutcome) : PState :=
  match o with
  | Success response =>
      match onSuccess response with
      | Normal result => Fulfilled result
      | Throw _ => Pending
      end
  | Failure error => Rejected error
  end.

(** [_callJSFunction(functionName, args)]: the executor of the new promise
    hands the call to the transport at once. *)
Definition _callJSFunction (fn : string) (args : list JsVal)
  : Transport -> HostPromise * Transport := fun t =>
  (PromiseOfCall (List.length t), (t ++ [{| functionName := fn; callArgs := args |}])%list).

Definition InvalidImageSource : JsVal :=
  VStr "Please provide Image, ImageSource object or Valid Image Path".

(** [setImage(functionName, image, args?, format = 'png')] *)
Definition setImage (self : Proxy) (fn : string) (image : JsVal)
    (args : option (list JsVal)) (fmt : option string)
  : Transport -> HostPromise * Transport := fun t =>
  let fmt := match fmt with None => "png" | Some f => f end in
  let r := _resolveImageSourceAndFormat image (Some fmt) in
  match imageSource r with
  | None => (PromiseReject InvalidImageSource, t)
  | Some src =>
      let base64ImageStr := _getBase64StrFromImageSource src (format r) in
      _callJSFunction "NSCanvasInterface._setImage"
        ([VStr (canvasId self); VStr fn; VStr base64ImageStr]
           ++ match args with Some a => a | None => [] end)%list t
  end.

(** [createImage(functionName, args?, format = 'png')] *)
Definition createImage (self : Proxy) (fn : string)
    (args : option (list JsVal)) (fmt : option string)
  : Transport -> HostPromise * Transport :=
  let fmt := match fmt with None => "png" | Some f => f end in
  _callJSFunction "NSCanvasInterface._createImage"
    [VStr (canvasId self); VStr fn; VStr fmt;
     match args with Some a => VArr a | None => VUndefined end].

End WithRuntime.
End Host.

(** ** The web-view side: class NSCanvasInterface and the run-time under it *)
Module Web.
Local Open Scope list_scope.

(** The bitmap of a canvas, as far as this plugin sees it: what
    [toDataURL] serialises. *)
Definition Pixels := string.

(** An HTMLCanvasElement: the element and its [id] attribute. *)
Record Canvas := { el : nat; id : string }.

(** What a registered handler does when it is called, as far as the
    dispatcher can observe: it may draw, create promises (settled at
    creation or later, by its own asynchronous work), construct further
    interfaces, and finally returns or throws. *)
Inductive HandlerBody :=
| HReturn (v : JsVal)
| HThrow (e : JsVal)
| HNewPromise (init : PState) (k : nat -> HandlerBody)
| HConstruct (c : Canvas) (k : nat -> HandlerBody)
| HDraw (target : nat) (px : Pixels) (k : HandlerBody).

(** A handler receives [canvas, context, ...args]. *)
Abbreviation Handler := (list JsVal -> HandlerBody).

(** An NSCanvasInterface object. *)
Record Instance := {
  canvas : Canvas;
  canvasReqHandlers : gmap string Handler
}.

(** The function expressions the source passes to [then]. *)
Inductive Callback :=
| SetImageThen (outer : nat)
    (* function(retnValue) { resolve(retnValue); }  of _setImage *)
| CreateImageThen (canvasId imgFormat : string) (outer : nat).
    (* function(data) { ... resolve({_strImage, data}); }  of _createImage *)

(** What waits on a promise. *)
Inductive Reaction :=
| RThen (onFulfilled : Callback) (derived : nat)
    (* p.then(onFulfilled): no rejection callback; [derived] is the promise
       the call returns *)
| RFollow (target : nat).
    (* [target] was resolved with this promise and takes over its outcome *)

Inductive Outcome :=
| Ful (v : JsVal)
| Rej (e : JsVal).

Definition state_of (o : Outcome) : PState :=
  match o with Ful v => Fulfilled v | Rej e => Rejected e end.

(** A microtask. *)
Inductive Job := React (r : Reaction) (o : Outcome).

Record PCell := {
  pstate : PState;
  alreadyResolved : bool;       (* shared by the promise's resolve and reject *)
  reactions : list Reaction
}.

(** [image.onload] as set by [_setImage]; the closure captures the
    arguments of the call and [resolve]/[reject] of the promise [outer]. *)
Inductive OnLoad := OnLoadSetImage (canvasId functionName : string) (args : list JsVal) (outer : nat).

Record ImageEl := {
  src : option string;
  onload : option OnLoad;
  loading : bool
}.

(** One call of a registered handler; the log of calls is kept to state
    which handlers ran. *)
Record Invocation := {
  inv_instance : nat;
  inv_name : string;
  inv_args : list JsVal
}.

(** A store of objects addressed by reference; [next] is the first
    reference not handed out yet. *)
Record Heap (A : Type) := { cells : gmap nat A; next : nat }.
Arguments cells {A} h.
Arguments next {A} h.

Definition deref {A} (h : Heap A) (l : nat) : option A := cells h !! l.
Definition store {A} (l : nat) (a : A) (h : Heap A) : Heap A :=
  {| cells := <[l := a]> (cells h); next := next h |}.
Definition alloc {A} (a : A) (h : Heap A) : Heap A :=
  {| cells := <[next h := a]> (cells h); next := S (next h) |}.
Definition empty_heap {A} : Heap A := {| cells := ∅; next := 0 |}.

Record State := {
  _canvasInterfaceInstanceMap : gmap string nat;  (* the static table: its own keys *)
  table_prototype : option nat;                   (* the instance that replaced its prototype *)
  instances : Heap Instance;
  promises : Heap PCell;
  images : Heap ImageEl;
  bitmap : nat -> Pixels;                         (* the bitmap of each canvas element *)
  jobs : list Job;                                (* the microtask queue *)
  invocations : list Invocation
}.

Definition initial : State :=
  {| _canvasInterfaceInstanceMap := ∅;
     table_prototype := None;
     instances := empty_heap;
     promises := empty_heap;
     images := empty_heap;
     bitmap := fun _ => "";
     jobs := [];
     invocations := [] |}.

Definition set_map (m : gmap string nat) (st : State) : State :=
  {| _canvasInterfaceInstanceMap := m;
     table_prototype := table_prototype st;
     instances := instances st; promises := promises st; images := images st;
     bitmap := bitmap st; jobs := jobs st; invocations := invocations st |}.

Definition set_table_prototype (p : option nat) (st : State) : State :=
  {| _canvasInterfaceInstanceMap := _canvasInterfaceInstanceMap st;
     table_prototype := p;
     instances := instances st; promises := promises st; images := images st;
     bitmap := bitmap st; jobs := jobs st; invocations := invocations st |}.

Definition set_instances (h : Heap Instance) (st : State) : State :=
  {| _canvasInterfaceInstanceMap := _canvasInterfaceInstanceMap st;
     table_prototype := table_prototype st;
     instances := h; promises := promises st; images := images st;
     bitmap := bitmap st; jobs := jobs st; invocations := invocations st |}.

Definition set_promises (h : Heap PCell) (st : State) : State :=
  {| _canvasInterfaceInstanceMap := _canvasInterfaceInstanceMap st;
     table_prototype := table_prototype st;
     instances := instances st; promises := h; images := images st;
     bitmap := bitmap st; jobs := jobs st; invocations := invocations st |}.

Definition set_images (h : Heap ImageEl) (st : State) : State :=
  {| _canvasInterfaceInstanceMap := _canvasInterfaceInstanceMap st;
     table_prototype := table_prototype st;
     instances := instances st; promises := promises st; images := h;
     bitmap := bitmap st; jobs := jobs st; invocations := invocations st |}.

Definition set_bitmap (bm : nat -> Pixels) (st : State) : State :=
  {| _canvasInterfaceInstanceMap := _canvasInterfaceInstanceMap st;
     table_prototype := table_prototype st;
     instances := instances st; promises := promises st; images := images st;
     bitmap := bm; jobs := jobs st; invocations := invocations st |}.

Definition set_jobs (q : list Job) (st : State) : State :=
  {| _canvasInterfaceInstanceMap := _canvasInterfaceInstanceMap st;
     table_prototype := table_prototype st;
     instances := instances st; promises := promises st; images := images st;
     bitmap := bitmap st; jobs := q; invocations := invocations st |}.

Definition set_invocations (l : list Invocation) (st : State) : State :=
  {| _canvasInterfaceInstanceMap := _canvasInterfaceInstanceMap st;
     table_prototype := table_prototype st;
     instances := instances st; promises := promises st; images := images st;
     bitmap := bitmap st; jobs := jobs st; invocations := l |}.

(** State passing. *)
Definition M (A : Type) : Type := State -> A * State.
Definition ret {A} (a : A) : M A := fun st => (a, st).
Definition bind {A B} (m : M A) (k : A -> M B) : M B :=
  fun st => let (a, st') := m st in k a st'.
Definition modify (f : State -> State) : M unit := fun st => (tt, f st).

Notation "'do' x <- m ; k" := (bind m (fun x => k))
  (at level 10, x name, m at level 100, k at level 200).
Notation "m ;; k" := (bind m (fun _ => k))
  (at level 100, k at level 200, right associativity).

(** *** Promises *)

(** A new promise: pending ([new Promise(...)] before its executor runs),
    or settled from the start. *)
Definition new_promise (init : PState) : M nat := fun st =>
  (next (promises st),
   set_promises
     (alloc {| pstate := init;
               alreadyResolved := match init with Pending => false | _ => true end;
               reactions := [] |} (promises st)) st).

(** A pending promise takes its final state; its reactions become jobs. *)
Definition settle (p : nat) (o : Outcome) : State -> State := fun st =>
  match deref (promises st) p with
  | Some c =>
      match pstate c with
      | Pending =>
          set_jobs (jobs st ++ map (fun r => React r o) (reactions c))
            (set_promises
               (store p {| pstate := state_of o;
                           alreadyResolved := alreadyResolved c;
                           reactions := [] |} (promises st)) st)
      | _ => st
      end
  | None => st
  end.

(** A reaction is attached: queued at once when the promise is settled. *)
Definition subscribe (p : nat) (r : Reaction) : State -> State := fun st =>
  match deref (promises st) p with
  | Some c =>
      match pstate c with
      | Pending =>
          set_promises
            (store p {| pstate := Pending;
                        alreadyResolved := alreadyResolved c;
                        reactions := reactions c ++ [r] |} (promises st)) st
      | Fulfilled v => set_jobs (jobs st ++ [React r (Ful v)]) st
      | Rejected e => set_jobs (jobs st ++ [React r (Rej e)]) st
      end
  | None => st
  end.

Definition as_thenable (v : JsVal) : option nat :=
  match v with
  | VNative (NPromise q) => Some q
  | _ => None
  end.

(** The first call of [resolve] or [reject] of a promise disables both. *)
Definition lock (p : nat) : State -> State := fun st =>
  match deref (promises st) p with
  | Some c =>
      set_promises
        (store p {| pstate := pstate c; alreadyResolved := true;
                    reactions := reactions c |} (promises st)) st
  | None => st
  end.

Definition is_locked (p : nat) (st : State) : bool :=
  match deref (promises st) p with
  | Some c => alreadyResolved c
  | None => true
  end.

(** The [resolve] function of promise [p]. Resolving with a promise [q]
    makes [p] wait for [q]; the extra microtask in which the engine calls
    [q.then] is not represented. *)
Definition resolve_fn (p : nat) (v : JsVal) : State -> State := fun st =>
  if is_locked p st then st
  else
    match as_thenable v with
    | Some q =>
        if Nat.eqb q p
        then settle p (Rej (TypeError "A promise cannot be resolved with itself.")) (lock p st)
        else subscribe q (RFollow p) (lock p st)
    | None => settle p (Ful v) (lock p st)
    end.

(** The [reject] function of promise [p]. *)
Definition reject_fn (p : nat) (e : JsVal) : State -> State := fun st =>
  if is_locked p st then st else settle p (Rej e) (lock p st).

(** [Promise.resolve(v)] for a [v] that is not a promise. *)
Definition Promise_resolve (v : JsVal) : M JsVal :=
  do q <- new_promise (Fulfilled v); ret (VNative (NPromise q)).

(** [p.then(cb)] *)
Definition then_ (p : nat) (cb : Callback) : M nat :=
  do d <- new_promise Pending;
  modify (subscribe p (RThen cb d)) ;;
  ret d.

(** *** The class *)

(** The members of [Object.prototype], which the table and the handler
    maps inherit. Each is given by what
    [member.apply(this, [canvas, context].concat(args))] does in the executor
    of lines 50-62, where [this] is the global object (the class is compiled
    to ES5 code that is not strict): [Object] returns its first argument, the
    canvas; [valueOf] returns the receiver; [hasOwnProperty], [isPrototypeOf]
    and [propertyIsEnumerable] answer [false] and the two [__lookup] methods
    [undefined], as the global object has nothing to do with the canvas;
    [__defineGetter__] and [__defineSetter__] refuse the context, which is
    not a function; the value of [__proto__] is [Object.prototype] itself,
    which has no [apply]. *)
Definition Object_prototype : gmap string Handler :=
  list_to_map
    [("constructor",
      fun args => match args with
                  | VNative o :: _ => HReturn (VNative o)
                  | VObj props :: _ => HReturn (VObj props)
                  | VArr items :: _ => HReturn (VArr items)
                  | _ => HReturn (VObj [])   (* a new object, or a wrapper *)
                  end);
     ("toString", fun _ => HReturn (VStr "[object Window]"));
     ("toLocaleString", fun _ => HReturn (VStr "[object Window]"));
     ("valueOf", fun _ => HReturn (VNative NWindow));
     ("hasOwnProperty", fun _ => HReturn (VBool false));
     ("isPrototypeOf", fun _ => HReturn (VBool false));
     ("propertyIsEnumerable", fun _ => HReturn (VBool false));
     ("__lookupGetter__", fun _ => HReturn VUndefined);
     ("__lookupSetter__", fun _ => HReturn VUndefined);
     ("__defineGetter__",
      fun _ => HThrow (TypeError "Object.prototype.__defineGetter__: Expecting function"));
     ("__defineSetter__",
      fun _ => HThrow (TypeError "Object.prototype.__defineSetter__: Expecting function"));
     ("__proto__", fun _ => HThrow (TypeError "canvasReqHandler.apply is not a function"))].

(** [handlers[name]] on a handler map, a plain object: its own property
    of that name, or else the member of [Object.prototype]; [None] for
    [undefined]. *)
Definition member (handlers : gmap string Handler) (name : string) : option Handler :=
  match handlers !! name with
  | Some h => Some h
  | None => Object_prototype !! name
  end.

(** What reading a key of the table gives when it is not [undefined]. *)
Inductive TableValue :=
| AnInstance (ref : nat) (o : Instance)
    (* an NSCanvasInterface object *)
| Inherited.
    (* a value reached through the prototype chain that is no
       NSCanvasInterface object: its [canvasReqHandlers] and its
       [canvas.toDataURL] are [undefined] *)

Definition instance_at (ref : nat) (st : State) : option TableValue :=
  match deref (instances st) ref with
  | Some o => Some (AnInstance ref o)
  | None => None
  end.

(** [constructor(canvas)]: the new object, entered in the table under
    [canvas.id]. The assignment writes an own key, except that for the key
    [__proto__], when the table has no such own key, it runs the setter of
    [Object.prototype] and makes the new object the prototype of the
    table. *)
Definition constructor (c : Canvas) : M nat := fun st =>
  let this := next (instances st) in
  let st1 :=
    set_instances (alloc {| canvas := c; canvasReqHandlers := ∅ |} (instances st)) st in
  (this,
   match _canvasInterfaceInstanceMap st !! id c with
   | Some _ => set_map (<[id c := this]> (_canvasInterfaceInstanceMap st)) st1
   | None =>
       if String.eqb (id c) "__proto__" then set_table_prototype (Some this) st1
       else set_map (<[id c := this]> (_canvasInterfaceInstanceMap st)) st1
   end).

(** [inst.canvasReqHandlers = hs] *)
Definition register (inst : nat) (hs : gmap string Handler) : State -> State := fun st =>
  match deref (instances st) inst with
  | Some o =>
      set_instances (store inst {| canvas := canvas o; canvasReqHandlers := hs |} (instances st)) st
  | None => st
  end.

(** [_getCanvasInstanceById(canvasId)], that is
    [_canvasInterfaceInstanceMap[canvasId]]: the own key of the table, or
    else what the prototype chain of the table gives; [None] for
    [undefined]. The chain is [Object.prototype], preceded, once an instance
    has become the prototype of the table, by that instance (own
    properties [canvas] and [canvasReqHandlers]) and by
    [NSCanvasInterface.prototype] (whose only property, [constructor], is a
    name of [Object.prototype] too); the accessor [__proto__] gives the
    prototype of the table. (A handler registered under the name
    [canvasReqHandlers] itself is not considered: the handler map reached
    through the chain counts as a value without [canvasReqHandlers].) *)
Definition _getCanvasInstanceById (canvasId : string) (st : State) : option TableValue :=
  match _canvasInterfaceInstanceMap st !! canvasId with
  | Some ref => instance_at ref st
  | None =>
      if String.eqb canvasId "__proto__" then
        match table_prototype st with
        | Some ref => instance_at ref st
        | None => Some Inherited
        end
      else
        match table_prototype st, Object_prototype !! canvasId with
        | _, Some _ => Some Inherited
        | Some _, None =>
            if existsb (String.eqb canvasId) ["canvas"; "canvasReqHandlers"]
            then Some Inherited else None
        | None, None => None
        end
  end.

(** Running the body of a handler. *)
Fixpoint run_body (b : HandlerBody) : M (Completion JsVal) :=
  match b with
  | HReturn v => ret (Normal v)
  | HThrow e => ret (Throw e)
  | HNewPromise init k => do q <- new_promise init; run_body (k q)
  | HConstruct c k => do i <- constructor c; run_body (k i)
  | HDraw target px k =>
      modify (fun st => set_bitmap (fun x => if Nat.eqb x target then px else bitmap st x) st) ;;
      run_body k
  end.

Definition NoSurfaceRegistered (canvasId : string) : JsVal :=
  VStr ("No canvas interface instance found for canvas " ++ canvasId)%string.

Definition HandlerNotRegistered (functionName canvasId : string) : JsVal :=
  VStr ("Function " ++ functionName ++ " is not registered with canvas " ++ canvasId)%string.

(** Lines 54-60 of the executor: what [retnValue] is replaced by. *)
Definition wrap_retnValue (retnValue : JsVal) : M JsVal :=
  if negb (truthy retnValue) then Promise_resolve VUndefined
  else if negb (truthy (get retnValue "then")) then Promise_resolve retnValue
  else ret retnValue.

(** [[canvas, context].concat(args)] *)
Definition actuals (o : Instance) (args : list JsVal) : list JsVal :=
  [VNative (NCanvas (el (canvas o))); VNative (NContext2D (el (canvas o)))] ++ args.

(** [new Promise(function(resolve, reject) {...})] of lines 50-62: the
    promise is created and its executor calls the handler at once. [ref]
    is the reference of [oNSCanvasInterface]. *)
Definition executor (ref : nat) (oNSCanvasInterface : Instance) (functionName : string)
    (canvasReqHandler : Handler) (args : list JsVal) : M nat :=
  do p <- new_promise Pending;
  modify (fun st => set_invocations (invocations st ++
    [{| inv_instance := ref; inv_name := functionName;
        inv_args := actuals oNSCanvasInterface args |}]) st) ;;
  do c <- run_body (canvasReqHandler (actuals oNSCanvasInterface args));
  match c with
  | Normal retnValue =>
      do retnValue' <- wrap_retnValue retnValue;
      modify (resolve_fn p retnValue') ;;
      ret p
  | Throw e =>
      (* an exception inside an executor rejects the promise *)
      modify (reject_fn p e) ;;
      ret p
  end.

(** [_callCanvasReqHandler(canvasId, functionName, args)] *)
Definition _callCanvasReqHandler (canvasId functionName : string) (args : list JsVal)
  : M (Completion nat) := fun st =>
  match _getCanvasInstanceById canvasId st with
  | None => (Throw (NoSurfaceRegistered canvasId), st)
  | Some Inherited =>
      (* line 47: oNSCanvasInterface.canvasReqHandlers is undefined *)
      (Throw (TypeError ("Cannot read property '" ++ functionName ++ "' of undefined")%string),
       st)
  | Some (AnInstance ref oNSCanvasInterface) =>
      match member (canvasReqHandlers oNSCanvasInterface) functionName with
      | Some canvasReqHandler =>
          (do p <- executor ref oNSCanvasInterface functionName canvasReqHandler args;
           ret (Normal p)) st
      | None => (Throw (HandlerNotRegistered functionName canvasId), st)
      end
  end.

(** [_setImage(canvasId, functionName, base64IamgeStr, args)] up to its
    return: the image starts loading. *)
Definition _setImage (canvasId functionName base64IamgeStr : string) (args : list JsVal)
  : M nat :=
  do outer <- new_promise Pending;
  modify (fun st => set_images
    (alloc {| src := Some base64IamgeStr;
              onload := Some (OnLoadSetImage canvasId functionName args outer);
              loading := true |} (images st)) st) ;;
  ret outer.

(** The body of [image.onload]; [retnPromise] is an object, so the test
    [!retnPromise] never throws. *)
Definition run_onload (image : nat) (h : OnLoad) : State -> State := fun st =>
  match h with
  | OnLoadSetImage canvasId functionName args outer =>
      match _callCanvasReqHandler canvasId functionName
              ([VNative (NImageElement image)] ++ args) st with
      | (Normal retnPromise, st1) =>
          snd (then_ retnPromise (SetImageThen outer) st1)
      | (Throw e, st1) => reject_fn outer e st1
      end
  end.

(** [_createImage(canvasId, functionName, imgFormat, args)] up to its
    return; [retnPromise] is an object, so the test [!retnPromise] never
    throws. *)
Definition _createImage (canvasId functionName imgFormat : string) (args : list JsVal)
  : M nat :=
  do outer <- new_promise Pending;
  do c <- _callCanvasReqHandler canvasId functionName args;
  match c with
  | Normal retnPromise =>
      then_ retnPromise (CreateImageThen canvasId imgFormat outer) ;;
      ret outer
  | Throw e =>
      modify (reject_fn outer e) ;;
      ret outer
  end.

Section WithBrowser.
(** [canvas.toDataURL(mimeType)], a function of the bitmap. *)
Variable toDataURL : Pixels -> string -> string.

(** Calling one of the two [then] callbacks with the fulfilment value. *)
Definition run_callback (cb : Callback) (v : JsVal) : M (Completion JsVal) := fun st =>
  match cb with
  | SetImageThen outer => (Normal VUndefined, resolve_fn outer v st)
  | CreateImageThen canvasId imgFormat outer =>
      match _getCanvasInstanceById canvasId st with
      | Some (AnInstance _ oNSCanvasInterface) =>
          let strImage :=
            toDataURL (bitmap st (el (canvas oNSCanvasInterface)))
              (if String.eqb imgFormat "png" then "image/png" else "image/jpeg") in
          (Normal VUndefined,
           resolve_fn outer (VObj [("_strImage", VStr strImage); ("data", v)]) st)
      | Some Inherited =>
          (Throw (TypeError "Cannot read property 'toDataURL' of undefined"), st)
      | None =>
          (Throw (TypeError "Cannot read property 'canvas' of undefined"), st)
      end
  end.

(** One microtask. *)
Definition run_job (j : Job) : State -> State := fun st =>
  match j with
  | React (RFollow target) o => settle target o st
  | React (RThen cb derived) (Rej e) => reject_fn derived e st
  | React (RThen cb derived) (Ful v) =>
      match run_callback cb v st with
      | (Normal u, st1) => resolve_fn derived u st1
      | (Throw e, st1) => reject_fn derived e st1
      end
  end.

(** The microtask queue is emptied after every task. *)
Fixpoint drain (fuel : nat) (st : State) : State :=
  match fuel with
  | O => st
  | S n =>
      match jobs st with
      | [] => st
      | j :: rest => drain n (run_job j (set_jobs rest st))
      end
  end.

(** What happens in the web view, one task at a time. *)
Inductive Event :=
| Construct (c : Canvas)                                (* new NSCanvasInterface(c) *)
| Register (inst : nat) (hs : gmap string Handler)      (* inst.canvasReqHandlers = hs *)
| CallSetImage (canvasId functionName base64 : string) (args : list JsVal)
| CallCreateImage (canvasId functionName imgFormat : string) (args : list JsVal)
| ImageLoaded (image : nat)                             (* the load event of an image *)
| ImageError (image : nat)                              (* its error event *)
| Settle (p : nat) (o : Outcome).                       (* the owner of p calls resolve / reject *)

Definition stop_loading (image : nat) : State -> State := fun st =>
  match deref (images st) image with
  | Some i =>
      set_images (store image {| src := src i; onload := onload i; loading := false |}
                    (images st)) st
  | None => st
  end.

Definition task (ev : Event) : State -> State := fun st =>
  match ev with
  | Construct c => snd (constructor c st)
  | Register inst hs => register inst hs st
  | CallSetImage canvasId fn base64 args => snd (_setImage canvasId fn base64 args st)
  | CallCreateImage canvasId fn fmt args => snd (_createImage canvasId fn fmt args st)
  | ImageLoaded image =>
      match deref (images st) image with
      | Some i =>
          if loading i then
            match onload i with
            | Some h => run_onload image h (stop_loading image st)
            | None => stop_loading image st
            end
          else st
      | None => st
      end
  | ImageError image =>
      (* no onerror callback is ever installed *)
      match deref (images st) image with
      | Some i => if loading i then stop_loading image st else st
      | None => st
      end
  | Settle p (Ful v) => resolve_fn p v st
  | Settle p (Rej e) => reject_fn p e st
  end.

Definition step (fuel : nat) (ev : Event) (st : State) : State :=
  drain fuel (task ev st).

Fixpoint run (fuel : nat) (evs : list Event) (st : State) : State :=
  match evs with
  | [] => st
  | ev :: rest => run fuel rest (step fuel ev st)
  end.

End WithBrowser.

(** The state of a promise, [Pending] included. *)
Definition state_of_promise (st : State) (p : nat) : option PState :=
  pstate <$> deref (promises st) p.

(** A rejected promise nothing was ever attached to. *)
Definition unhandled_rejection (st : State) (p : nat) (e : JsVal) : Prop :=
  exists c, deref (promises st) p = Some c /\ pstate c = Rejected e /\ reactions c = [].

(** *** Situations the statements speak about *)

Abbreviation open_cell := {| pstate := Pending; alreadyResolved := false; reactions := [] |}.

Abbreviation settled_cell s := {| pstate := s; alreadyResolved := true; reactions := [] |}.

(** The lookup of [_callCanvasReqHandler] fails: the table gives
    [undefined] for the id, or it gives an instance whose handler map gives
    [undefined] for the name. In both cases the name is neither an own key
    nor a name that is inherited. *)
Inductive LookupFails (st : State) (canvasId functionName : string) : JsVal -> Prop :=
| NoSurface :
    _getCanvasInstanceById canvasId st = None ->
    LookupFails st canvasId functionName (NoSurfaceRegistered canvasId)
| NoHandler ref o :
    _getCanvasInstanceById canvasId st = Some (AnInstance ref o) ->
    member (canvasReqHandlers o) functionName = None ->
    LookupFails st canvasId functionName (HandlerNotRegistered functionName canvasId).

(** The state in which the handler starts: the promise of the executor is
    allocated and the call is logged. *)
Definition entered (ref : nat) (o : Instance) (functionName : string) (args : list JsVal)
    (st : State) : State :=
  set_invocations
    (invocations st ++
       [{| inv_instance := ref; inv_name := functionName;
           inv_args := actuals o args |}])
    (set_promises (alloc open_cell (promises st)) st).

(** The lookups of [_callCanvasReqHandler] succeed on own keys: the table
    has an entry for the id, and the handler map of that instance has the
    handler. *)
Record Routes (st : State) (canvasId functionName : string)
    (ref : nat) (o : Instance) (h : Handler) : Prop := {
  rt_map : _canvasInterfaceInstanceMap st !! canvasId = Some ref;
  rt_instance : deref (instances st) ref = Some o;
  rt_handler : canvasReqHandlers o !! functionName = Some h
}.

(** A dispatch that waits for the promise [q] returned by its handler:
    [outer] is the dispatch promise, [p] the promise of the executor,
    [d] the promise returned by [p.then(cb)]. *)
Record InFlight (st : State) (outer p q d : nat) (cb : Callback) : Prop := {
  fl_outer : deref (promises st) outer = Some open_cell;
  fl_p : deref (promises st) p
         = Some {| pstate := Pending; alreadyResolved := true; reactions := [RThen cb d] |};
  fl_q : deref (promises st) q
         = Some {| pstate := Pending; alreadyResolved := false; reactions := [RFollow p] |};
  fl_d : deref (promises st) d = Some open_cell;
  fl_distinct : outer <> p /\ outer <> q /\ outer <> d /\ p <> q /\ p <> d /\ q <> d;
  fl_quiet : jobs st = []
}.

(** Whenever it is called, the handler returns a promise it has just
    created and that is still pending. *)
Definition Async (h : Handler) : Prop :=
  forall args st, exists q st2,
    run_body (h args) st = (Normal (VNative (NPromise q)), st2) /\
    deref (promises st2) q = Some open_cell /\
    next (promises st) <= q < next (promises st2).

(** The log entry of a call. *)
Definition invocation (ref : nat) (o : Instance) (functionName : string) (args : list JsVal)
  : Invocation :=
  {| inv_instance := ref; inv_name := functionName; inv_args := actuals o args |}.

(** The state in which [onload] runs. *)
Definition loaded (image : nat) (cell : ImageEl) (st : State) : State :=
  set_images (store image {| src := src cell; onload := onload cell; loading := false |}
                (images st)) st.


(** The function the callback closes over: [resolve] of this promise. *)
Definition cb_outer (cb : Callback) : nat :=
  match cb with
  | SetImageThen outer => outer
  | CreateImageThen _ _ outer => outer
  end.

(** Running the reaction may settle promise [x]. *)
Definition holds (x : nat) (r : Reaction) : bool :=
  match r with
  | RThen cb d => Nat.eqb (cb_outer cb) x || Nat.eqb d x
  | RFollow target => Nat.eqb target x
  end.

Definition job_holds (x : nat) (j : Job) : bool :=
  match j with React r _ => holds x r end.

Definition onload_holds (x : nat) (h : OnLoad) : bool :=
  match h with OnLoadSetImage _ _ _ outer => Nat.eqb outer x end.

(** No reaction, no queued job and no [onload] still to run can settle
    promise [x]. *)
Record Unheld (x : nat) (st : State) : Prop := {
  uh_reactions : forall p c, deref (promises st) p = Some c ->
                   Forall (fun r => holds x r = false) (reactions c);
  uh_jobs : Forall (fun j => job_holds x j = false) (jobs st);
  uh_images : forall i c h, deref (images st) i = Some c -> loading c = true ->
                onload c = Some h -> onload_holds x h = false
}.

(** Promise [x] exists in state [s] and nothing can settle it. *)
Record Sealed (x : nat) (s : PState) (st : State) : Prop := {
  sl_state : state_of_promise st x = Some s;
  sl_alloc : x < next (promises st);
  sl_unheld : Unheld x st
}.

(** The event is not a call of [resolve] or [reject] of [x] itself. *)
Definition spares (x : nat) (ev : Event) : Prop :=
  match ev with
  | Settle p _ => p <> x
  | _ => True
  end.

End Web.

(** ** Definitions used in the statements *)

Import Web.

(** [c] occurs in [s]. *)
Fixpoint occurs (c : ascii) (s : string) : bool :=
  match s with
  | EmptyString => false
  | String a rest => Ascii.eqb a c || occurs c rest
  end.

(** What follows the first [sep] in [s], as the specification words the
    decoding; [None] when [sep] does not occur. *)
Fixpoint after_first (sep : ascii) (s : string) : option string :=
  match s with
  | EmptyString => None
  | String c rest => if Ascii.eqb c sep then Some rest else after_first sep rest
  end.

(** [a ?? b], as the specification words the [data] field. *)
Definition nullish_or (a b : JsVal) : JsVal :=
  match a with
  | VUndefined | VNull => b
  | _ => a
  end.

(** A host run-time for the examples: handles are string lengths. *)
Definition rt0 : Host.ImageSourceModule :=
  {| Host.fromFile := fun path => Some (String.length path);
     Host.fromBase64 := fun v => match v with
                                 | VStr s => Normal (VNative (NImageSource (String.length s)))
                                 | _ => Normal VNull
                                 end;
     Host.toBase64String := fun h fmt => fmt |}.

(** ** A page with one canvas *)
Definition toDataURL0 (px : Pixels) (mime : string) : string :=
  ("data:" ++ mime ++ ";base64," ++ px)%string.

Definition canvasA : Canvas := {| el := 0; id := "canvasEle" |}.
Definition canvasB : Canvas := {| el := 1; id := "canvasEle" |}.

(** Draws, then returns a promise that is settled later. *)
Definition later : Handler :=
  fun _ => HDraw 0 "QUFB" (HNewPromise Pending (fun q => HReturn (VNative (NPromise q)))).

Definition zero : Handler := fun _ => HReturn (VNum 0).

Definition broken : Handler := fun _ => HThrow (VStr "oops").

Definition handlers : gmap string Handler :=
  <["later" := later]> (<["zero" := zero]> (<["broken" := broken]> ∅)).

Definition page : State := register 0 handlers (snd (constructor canvasA initial)).

Definition interfaceA : Instance := {| canvas := canvasA; canvasReqHandlers := handlers |}.

(** ** Definitions used in the further properties *)

(** The encoder [_getBase64StrFromImageSource] selects for a format:
    ["jpeg"] for the formats [jpeg] and [jpg], ["png"] for every other
    one and for none. *)
Definition encoder (fmt : option string) : string :=
  match fmt with
  | Some f => if String.eqb f "jpeg" || String.eqb f "jpg" then "jpeg" else "png"
  | None => "png"
  end.

(** A host run-time whose [fromBase64] refuses anything but a string. *)
Definition rt_strict : Host.ImageSourceModule :=
  {| Host.fromFile := fun path => if String.eqb path "missing.png" then None
                                  else Some (String.length path);
     Host.fromBase64 := fun v => match v with
                                 | VStr s => Normal (VNative (NImageSource (String.length s)))
                                 | _ => Throw (VStr "not a string")
                                 end;
     Host.toBase64String := fun h fmt => fmt |}.

(** The [then] callback [cb] is queued with the value [x], and the
    promises [outer] (the dispatch promise it resolves) and [d] (the one
    [then] returned) are still open. *)
Record Ready (st : State) (outer d : nat) (cb : Callback) (x : JsVal) : Prop := {
  rd_jobs : jobs st = [React (RThen cb d) (Ful x)];
  rd_outer : deref (promises st) outer = Some open_cell;
  rd_d : deref (promises st) d = Some open_cell;
  rd_distinct : outer <> d
}.

(** What lines 54-60 make of a return value that is not a promise. *)
Definition normalised (r : JsVal) : JsVal := if truthy r then r else VUndefined.

(** The event starts no dispatch and is no load event: a construction, an
    assignment of handlers, an error event, or the settling of a promise. *)
Definition calls_nothing (ev : Event) : Prop :=
  match ev with
  | CallSetImage _ _ _ _ | CallCreateImage _ _ _ _ | ImageLoaded _ => False
  | _ => True
  end.

(** Draws, then returns a plain value. *)
Definition paint : Handler := fun _ => HDraw 0 "QUFB" (HReturn (VStr "ok")).

(** The page with [paint] among its handlers. *)
Definition studio : State := register 0 (<["paint" := paint]> handlers) page.

Definition interfaceS : Instance :=
  {| canvas := canvasA; canvasReqHandlers := <["paint" := paint]> handlers |}.

(** * Proofs *)

Section StringFacts.
Local Open Scope string_scope.

Lemma append_nil (t : string) : "" ++ t = t.
Proof. reflexivity. Qed.

Lemma append_cons a (s t : string) : String a s ++ t = String a (s ++ t).
Proof. reflexivity. Qed.

Lemma split_absent sep s : occurs sep s = false -> Js.split sep s = [s].
Proof.
  induction s as [|a s IH]; simpl; [done|].
  intros H. apply orb_false_iff in H as [Ha Hs].
  rewrite Ha, (IH Hs). reflexivity.
Qed.

Lemma split_first sep a b :
  occurs sep a = false -> Js.split sep (a ++ String sep b) = a :: Js.split sep b.
Proof.
  induction a as [|x a IH]; [rewrite append_nil | rewrite append_cons]; simpl.
  - intros _. by rewrite Ascii.eqb_refl.
  - intros H. apply orb_false_iff in H as [Hx Ha].
    rewrite Hx, (IH Ha). reflexivity.
Qed.

Lemma lastIndexOf_from_absent c s i found :
  occurs c s = false -> Js.lastIndexOf_from c s i found = found.
Proof.
  revert i found. induction s as [|a s IH]; simpl; intros i found H; [done|].
  apply orb_false_iff in H as [Ha Hs]. rewrite Ha. by apply IH.
Qed.

Lemma lastIndexOf_from_last c pre ext i found :
  occurs c ext = false ->
  Js.lastIndexOf_from c (pre ++ String c ext) i found = (i + Js.length pre)%Z.
Proof.
  intros Hext. revert i found. induction pre as [|a pre IH]; intros i found.
  - rewrite append_nil. simpl. rewrite Ascii.eqb_refl.
    rewrite lastIndexOf_from_absent by done. unfold Js.length. simpl. lia.
  - rewrite append_cons. simpl. rewrite IH. unfold Js.length. simpl String.length. lia.
Qed.

Lemma length_append (a b : string) :
  String.length (a ++ b) = (String.length a + String.length b)%nat.
Proof.
  induction a as [|x a IH]; [done|]. rewrite append_cons. simpl. by rewrite IH.
Qed.

Lemma substring_all n (s : string) : n = String.length s -> String.substring 0 n s = s.
Proof.
  revert n. induction s as [|a s IH]; intros n ->; simpl; [done|].
  by rewrite IH.
Qed.

Lemma substring_skip (pre rest : string) n :
  String.substring (String.length pre) n (pre ++ rest) = String.substring 0 n rest.
Proof.
  induction pre as [|a pre IH]; [done|]. rewrite append_cons. simpl. apply IH.
Qed.

(** The expression of line 86. *)
Lemma extension_after_last_dot pre ext :
  occurs "." ext = false ->
  Js.substring (pre ++ String "." ext)
    (Js.lastIndexOf (pre ++ String "." ext) "." + 1)
    (Js.length (pre ++ String "." ext)) = ext.
Proof.
  intros Hext. unfold Js.lastIndexOf. rewrite lastIndexOf_from_last by done.
  unfold Js.substring, Js.length. rewrite length_append. simpl String.length.
  set (n := String.length pre). set (m := String.length ext).
  replace (Z.min _ _) with (Z.of_nat (S n)) by lia.
  replace (Z.max (Z.max 0 _) (Z.max 0 _)) with (Z.of_nat (n + S m)) by lia.
  replace (Z.to_nat (Z.of_nat (n + S m) - Z.of_nat (S n))) with m by lia.
  rewrite Nat2Z.id.
  replace (pre ++ String "." ext) with ((pre ++ String "." EmptyString) ++ ext).
  2:{ clear. induction pre as [|a pre IH]; [done|]. rewrite !append_cons. by rewrite IH. }
  replace (S n) with (String.length (pre ++ String "." EmptyString)).
  2:{ rewrite length_append. simpl. lia. }
  rewrite substring_skip. by apply substring_all.
Qed.

End StringFacts.

Section HostProxy.
Local Open Scope string_scope.
Variable rt : Host.ImageSourceModule.

Lemma length_pos_of_nonempty (s : string) : s <> "" -> (0 <? Js.length s)%Z = true.
Proof.
  destruct s as [|a s]; [done|]. intros _. unfold Js.length. simpl String.length.
  apply Z.ltb_lt. lia.
Qed.

Lemma resolve_invalid image fmt :
  (forall src, image <> VNative (NImageView src)) ->
  (forall h, image <> VNative (NImageSource h)) ->
  (forall path, image = VStr path -> Js.trim path = "") ->
  Host.imageSource (Host._resolveImageSourceAndFormat rt image fmt) = None.
Proof.
  intros Hview Hsrc Hstr. unfold Host._resolveImageSourceAndFormat.
  destruct image as [| | | | |path| | |o]; try reflexivity.
  - rewrite (Hstr path eq_refl). simpl. by rewrite andb_false_r.
  - destruct o as [| | | |src|h|]; try reflexivity.
    + by destruct (Hview src).
    + by destruct (Hsrc h).
Qed.

Lemma resolve_path path fmt :
  Js.trim path <> "" ->
  Host._resolveImageSourceAndFormat rt (VStr path) fmt =
    {| Host.imageSource := Host.fromFile rt path;
       Host.format :=
         match fmt with
         | Some f => if String.eqb f "" then
                       Some (Js.substring path (Js.lastIndexOf path "."%char + 1) (Js.length path))
                     else Some f
         | None => Some (Js.substring path (Js.lastIndexOf path "."%char + 1) (Js.length path))
         end |}.
Proof.
  intros Hne. unfold Host._resolveImageSourceAndFormat.
  rewrite (length_pos_of_nonempty _ Hne), andb_true_r.
  assert (truthy (VStr path) = true) as ->; [|reflexivity].
  destruct path; [by destruct Hne|reflexivity].
Qed.

(** C5: an image argument that is neither an image view, nor an image
    source, nor a string with a character other than white space (so in
    particular any number, [null], [undefined], a plain object or the empty
    string) makes [setImage] return [Promise.reject(InvalidImageSource)];
    the call completes normally and the transport is handed nothing. *)
Theorem C5_setImage_rejects_invalid_source self fn image args fmt (t : Host.Transport) :
  (forall src, image <> VNative (NImageView src)) ->
  (forall h, image <> VNative (NImageSource h)) ->
  (forall path, image = VStr path -> Js.trim path = "") ->
  Host.setImage rt self fn image args fmt t
  = (Host.PromiseReject Host.InvalidImageSource, t).
Proof.
  intros Hview Hsrc Hstr. unfold Host.setImage. by rewrite resolve_invalid.
Qed.

(** C4: for a path [pre.ext] whose file loads, [setImage] called without a
    format sends the image encoded as png whatever [ext] is, because the
    parameter default ['png'] is already in place when
    [_resolveImageSourceAndFormat] runs; called without a format,
    [_resolveImageSourceAndFormat] itself does infer [ext]. *)
Theorem C4_setImage_omitted_format_is_png self fn pre ext args src (t : Host.Transport) :
  occurs "." ext = false ->
  Js.trim (pre ++ String "." ext) <> "" ->
  Host.fromFile rt (pre ++ String "." ext) = Some src ->
  Host.setImage rt self fn (VStr (pre ++ String "." ext)) args None t =
    (Host.PromiseOfCall (List.length t),
     (t ++ [{| Host.functionName := "NSCanvasInterface._setImage";
               Host.callArgs :=
                 [VStr (Host.canvasId self); VStr fn;
                  VStr ("data:image/png;base64," ++ Host.toBase64String rt src "png")]
                   ++ match args with Some a => a | None => [] end |}])%list)
  /\ Host.format (Host._resolveImageSourceAndFormat rt (VStr (pre ++ String "." ext)) None)
     = Some ext.
Proof.
  intros Hext Hne Hfile. split.
  - unfold Host.setImage. rewrite resolve_path by done. simpl.
    rewrite Hfile. reflexivity.
  - rewrite resolve_path by done. simpl. f_equal.
    by apply extension_after_last_dot.
Qed.

Lemma onSuccess_no_image r :
  truthy r = true -> truthy (get r "_strImage") = false ->
  Host.onSuccess rt r
  = Normal (VObj [("image", VNull); ("data", js_or (get r "data") VNull)]).
Proof. intros Hr Hi. unfold Host.onSuccess. by rewrite Hr, Hi. Qed.

(** C6: the success callback resolves with [undefined] for a falsy
    response; for a truthy response it resolves with an object whose [data]
    is [response.data] when that is truthy and [null] otherwise (so [0],
    [false], [NaN] and the empty string become [null]), and whose [image] is
    [null] when the response has no [_strImage]; the error callback rejects
    with the error unchanged. *)
Theorem C6_response_data_or_null (r e : JsVal) :
  (truthy r = false -> Host.settle rt (Host.Success r) = Fulfilled VUndefined) /\
  (truthy r = true -> truthy (get r "_strImage") = false ->
   Host.settle rt (Host.Success r)
   = Fulfilled (VObj [("image", VNull);
                      ("data", if truthy (get r "data") then get r "data" else VNull)])) /\
  (forall result, Host.settle rt (Host.Success r) = Fulfilled result -> truthy r = true ->
   get result "data" = if truthy (get r "data") then get r "data" else VNull) /\
  Host.settle rt (Host.Failure e) = Rejected e.
Proof.
  repeat split.
  - intros Hr. unfold Host.settle, Host.onSuccess. by rewrite Hr.
  - intros Hr Hi. unfold Host.settle. by rewrite onSuccess_no_image.
  - intros result Hs Hr. unfold Host.settle, Host.onSuccess in Hs. rewrite Hr in Hs.
    destruct (truthy (get r "_strImage"));
      [destruct (Host._getImageSourceFromBase64Str rt (get r "_strImage"))|];
      inversion Hs; reflexivity.
Qed.

(** C7: [_getImageSourceFromBase64Str] hands [fromBase64] the second piece
    of the string split at every comma: [undefined] when there is no comma,
    and otherwise the text between the first comma and the second one (or
    the end of the string); the result, or the failure, is that of
    [fromBase64]. *)
Theorem C7_decode_takes_second_piece (s : string) :
  Host._getImageSourceFromBase64Str rt (VStr s) = Host.fromBase64 rt (Host.payload s) /\
  (occurs "," s = false -> Host.payload s = VUndefined) /\
  (forall a b rest, occurs "," a = false -> occurs "," b = false ->
     s = a ++ String "," b \/ s = a ++ String "," (b ++ String "," rest) ->
     Host.payload s = VStr b).
Proof.
  split; [reflexivity|]. split.
  - intros H. unfold Host.payload. by rewrite split_absent.
  - intros a b rest Ha Hb [-> | ->]; unfold Host.payload.
    + by rewrite split_first, split_absent.
    + by rewrite !split_first.
Qed.

End HostProxy.

Section HeapFacts.
Context {A : Type}.
Implicit Types (h : Heap A) (a b : A) (l : nat).

Lemma deref_store_eq h l a : deref (store l a h) l = Some a.
Proof. apply lookup_insert_eq. Qed.

Lemma deref_store_ne h l l' a : l <> l' -> deref (store l a h) l' = deref h l'.
Proof. intros. by apply lookup_insert_ne. Qed.

Lemma deref_alloc_eq h a : deref (alloc a h) (next h) = Some a.
Proof. apply lookup_insert_eq. Qed.

Lemma deref_alloc_at h l a : l = next h -> deref (alloc a h) l = Some a.
Proof. intros ->. apply lookup_insert_eq. Qed.

Lemma deref_alloc_ne h l a : l <> next h -> deref (alloc a h) l = deref h l.
Proof. intros. by apply lookup_insert_ne. Qed.

Lemma next_store h l a : next (store l a h) = next h.
Proof. reflexivity. Qed.

Lemma next_alloc h a : next (alloc a h) = S (next h).
Proof. reflexivity. Qed.

Lemma store_store h l a b : store l a (store l b h) = store l a h.
Proof. unfold store. simpl. by rewrite insert_insert_eq. Qed.

Lemma deref_store_inv h p a q c :
  deref (store p a h) q = Some c -> (q = p /\ c = a) \/ (q <> p /\ deref h q = Some c).
Proof.
  destruct (decide (q = p)) as [->|Hne].
  - rewrite deref_store_eq. intros [= ->]. by left.
  - rewrite deref_store_ne by done. by right.
Qed.

Lemma deref_alloc_inv h a q c :
  deref (alloc a h) q = Some c -> (q = next h /\ c = a) \/ (q <> next h /\ deref h q = Some c).
Proof.
  destruct (decide (q = next h)) as [->|Hne].
  - rewrite deref_alloc_eq. intros [= ->]. by left.
  - rewrite deref_alloc_ne by done. by right.
Qed.

Lemma store_comm h p q a b :
  p <> q -> store p a (store q b h) = store q b (store p a h).
Proof. intros H. unfold store. simpl. by rewrite insert_insert_ne. Qed.

End HeapFacts.

Ltac sproj :=
  cbn [_canvasInterfaceInstanceMap table_prototype instances promises images bitmap jobs
       invocations set_map set_table_prototype set_instances set_promises set_images
       set_bitmap set_jobs
       set_invocations pstate alreadyResolved reactions fst snd
       ret bind modify state_of canvas canvasReqHandlers el id
       src onload loading app map] in *.

Ltac heap_simpl :=
  repeat first
    [ rewrite deref_store_eq
    | rewrite deref_alloc_eq
    | rewrite next_store
    | rewrite next_alloc
    | rewrite store_store
    | rewrite deref_store_ne by lia
    | rewrite deref_alloc_ne by (rewrite ?next_store, ?next_alloc; lia) ].

Section WebFacts.
Local Open Scope list_scope.
Variable toDataURL : Pixels -> string -> string.

Lemma drain_quiet fuel st : jobs st = [] -> drain toDataURL fuel st = st.
Proof. intros H. destruct fuel as [|n]; simpl; [done|]. by rewrite H. Qed.

Lemma settle_pending st p o c :
  deref (promises st) p = Some c -> pstate c = Pending ->
  settle p o st =
    set_jobs (jobs st ++ map (fun r => React r o) (reactions c))
      (set_promises (store p {| pstate := state_of o; alreadyResolved := alreadyResolved c;
                                reactions := [] |} (promises st)) st).
Proof. intros H Hp. unfold settle. by rewrite H, Hp. Qed.

Lemma reject_fn_open st p e c :
  deref (promises st) p = Some c -> pstate c = Pending -> alreadyResolved c = false ->
  reject_fn p e st =
    set_jobs (jobs st ++ map (fun r => React r (Rej e)) (reactions c))
      (set_promises (store p {| pstate := Rejected e; alreadyResolved := true;
                                reactions := [] |} (promises st)) st).
Proof.
  intros H Hp Hl. unfold reject_fn, is_locked, lock. rewrite H, Hl.
  erewrite settle_pending; sproj; heap_simpl; try done.
  by rewrite Hp.
Qed.

Lemma resolve_fn_value st p v c :
  deref (promises st) p = Some c -> pstate c = Pending -> alreadyResolved c = false ->
  as_thenable v = None ->
  resolve_fn p v st =
    set_jobs (jobs st ++ map (fun r => React r (Ful v)) (reactions c))
      (set_promises (store p {| pstate := Fulfilled v; alreadyResolved := true;
                                reactions := [] |} (promises st)) st).
Proof.
  intros H Hp Hl Hv. unfold resolve_fn, is_locked, lock. rewrite H, Hl, Hv.
  erewrite settle_pending; sproj; heap_simpl; try done.
  by rewrite Hp.
Qed.

(** The lookup reads the table, its prototype and the instances only. *)
Lemma getCanvasInstanceById_ext st st' canvasId :
  _canvasInterfaceInstanceMap st' = _canvasInterfaceInstanceMap st ->
  table_prototype st' = table_prototype st ->
  instances st' = instances st ->
  _getCanvasInstanceById canvasId st' = _getCanvasInstanceById canvasId st.
Proof.
  intros Hm Hp Hi. unfold _getCanvasInstanceById, instance_at. by rewrite Hm, Hp, Hi.
Qed.

(** An own key of the table is found before anything inherited. *)
Lemma getCanvasInstanceById_own st canvasId ref o :
  _canvasInterfaceInstanceMap st !! canvasId = Some ref ->
  deref (instances st) ref = Some o ->
  _getCanvasInstanceById canvasId st = Some (AnInstance ref o).
Proof.
  intros H1 H2. unfold _getCanvasInstanceById, instance_at. by rewrite H1, H2.
Qed.

Lemma member_own handlers name h : handlers !! name = Some h -> member handlers name = Some h.
Proof. intros H. unfold member. by rewrite H. Qed.


Lemma LookupFails_ext st st' canvasId functionName err :
  _canvasInterfaceInstanceMap st' = _canvasInterfaceInstanceMap st ->
  table_prototype st' = table_prototype st ->
  instances st' = instances st ->
  LookupFails st canvasId functionName err -> LookupFails st' canvasId functionName err.
Proof.
  intros Hm Hp Hi [H | ref o H1 H2].
  - apply NoSurface. by rewrite (getCanvasInstanceById_ext st st').
  - eapply NoHandler; [by rewrite (getCanvasInstanceById_ext st st')|done].
Qed.

Lemma callCanvasReqHandler_fails st canvasId functionName args err :
  LookupFails st canvasId functionName err ->
  _callCanvasReqHandler canvasId functionName args st = (Throw err, st).
Proof.
  intros [H | ref o H1 H2]; unfold _callCanvasReqHandler.
  - by rewrite H.
  - by rewrite H1, H2.
Qed.



(** The constructor touches the table (or its prototype) and the
    instances only. *)
Lemma constructor_frame c st :
  promises (snd (constructor c st)) = promises st /\
  jobs (snd (constructor c st)) = jobs st /\
  invocations (snd (constructor c st)) = invocations st /\
  images (snd (constructor c st)) = images st /\
  bitmap (snd (constructor c st)) = bitmap st /\
  instances (snd (constructor c st))
    = alloc {| canvas := c; canvasReqHandlers := ∅ |} (instances st) /\
  fst (constructor c st) = next (instances st).
Proof. unfold constructor. cbn [fst snd]. repeat case_match; sproj; repeat split. Qed.

(** After [new NSCanvasInterface(c)] the table gives the new object for
    [c.id], through the own key or, for [__proto__], through the accessor. *)
Lemma getCanvasInstanceById_constructor c st :
  _getCanvasInstanceById (id c) (snd (constructor c st))
  = Some (AnInstance (next (instances st)) {| canvas := c; canvasReqHandlers := ∅ |}).
Proof.
  unfold constructor. cbn [snd].
  destruct (_canvasInterfaceInstanceMap st !! id c) as [old|] eqn:Hown;
    [|destruct (String.eqb (id c) "__proto__") eqn:Hproto];
    unfold _getCanvasInstanceById, instance_at; sproj;
    rewrite ?lookup_insert_eq, ?Hown, ?Hproto; sproj; by rewrite deref_alloc_eq.
Qed.

(** A handler body only allocates: the queue, the log, the images and the
    promises that exist already are left as they are. *)
Lemma run_body_frame b st c st' :
  run_body b st = (c, st') ->
  jobs st' = jobs st /\ invocations st' = invocations st /\ images st' = images st /\
  next (promises st) <= next (promises st') /\
  (forall l, l < next (promises st) -> deref (promises st') l = deref (promises st) l).
Proof.
  revert st. induction b as [v|e|init k IH|cv k IH|target px k IH]; intros st Hrun.
  - inversion Hrun; subst. repeat split; auto.
  - inversion Hrun; subst. repeat split; auto.
  - simpl in Hrun. unfold bind, new_promise in Hrun.
    apply IH in Hrun as (Hj & Hi & Him & Hn & Hd). sproj.
    rewrite next_alloc in Hn, Hd.
    repeat split; auto; [lia|].
    intros l Hl. rewrite Hd by lia. by rewrite deref_alloc_ne by lia.
  - simpl in Hrun. unfold bind in Hrun.
    pose proof (constructor_frame cv st) as (Hp & Hj0 & Hi0 & Him0 & _).
    destruct (constructor cv st) as [i st1]. cbn [snd] in *.
    apply IH in Hrun as (Hj & Hi & Him & Hn & Hd).
    rewrite Hp in Hn, Hd. rewrite Hj, Hi, Him. repeat split; auto.
  - simpl in Hrun. unfold bind, modify in Hrun.
    apply IH in Hrun as (Hj & Hi & Him & Hn & Hd). sproj. repeat split; auto.
Qed.

(** The lookups of [_callCanvasReqHandler] give an instance and a handler:
    the executor runs. *)
Lemma callCanvasReqHandler_routed st canvasId functionName args ref o h :
  _getCanvasInstanceById canvasId st = Some (AnInstance ref o) ->
  member (canvasReqHandlers o) functionName = Some h ->
  _callCanvasReqHandler canvasId functionName args st =
    (Normal (fst (executor ref o functionName h args st)),
     snd (executor ref o functionName h args st)).
Proof.
  intros H1 H2. unfold _callCanvasReqHandler. rewrite H1, H2. unfold bind, ret.
  by destruct (executor ref o functionName h args st).
Qed.

Lemma callCanvasReqHandler_found st canvasId functionName args ref o h :
  _canvasInterfaceInstanceMap st !! canvasId = Some ref ->
  deref (instances st) ref = Some o ->
  canvasReqHandlers o !! functionName = Some h ->
  _callCanvasReqHandler canvasId functionName args st =
    (Normal (fst (executor ref o functionName h args st)),
     snd (executor ref o functionName h args st)).
Proof.
  intros H1 H2 H3. apply callCanvasReqHandler_routed.
  - by apply getCanvasInstanceById_own.
  - by apply member_own.
Qed.


Lemma executor_eq ref o functionName h args st :
  executor ref o functionName h args st =
    let p := next (promises st) in
    let (c, st2) := run_body (h (actuals o args)) (entered ref o functionName args st) in
    match c with
    | Normal retnValue =>
        let (retnValue', st3) := wrap_retnValue retnValue st2 in
        (p, resolve_fn p retnValue' st3)
    | Throw e => (p, reject_fn p e st2)
    end.
Proof.
  unfold executor, bind, modify, ret, new_promise, entered, actuals. sproj.
  destruct (run_body _ _) as [[r|e] st2]; [|reflexivity].
  by destruct (wrap_retnValue r st2).
Qed.

Lemma executor_fst ref o functionName h args st :
  fst (executor ref o functionName h args st) = next (promises st).
Proof.
  rewrite executor_eq. cbv zeta. destruct (run_body _ _) as [[r|e] st2]; [|reflexivity].
  by destruct (wrap_retnValue r st2).
Qed.

(** After the body, the promise of the executor is still untouched. *)
Lemma entered_body ref o functionName args st b c st2 :
  run_body b (entered ref o functionName args st) = (c, st2) ->
  deref (promises st2) (next (promises st))
    = Some {| pstate := Pending; alreadyResolved := false; reactions := [] |} /\
  jobs st2 = jobs st /\
  invocations st2 = invocations (entered ref o functionName args st) /\
  images st2 = images st /\
  S (next (promises st)) <= next (promises st2) /\
  (forall l, l < next (promises st) -> deref (promises st2) l = deref (promises st) l).
Proof.
  intros Hrun. apply run_body_frame in Hrun as (Hj & Hi & Him & Hn & Hd).
  unfold entered in *. sproj. rewrite next_alloc in Hn, Hd.
  repeat split; auto.
  - rewrite Hd by lia. by rewrite deref_alloc_eq.
  - intros l Hl. rewrite Hd by lia. by rewrite deref_alloc_ne by lia.
Qed.

Lemma resolve_fn_thenable st p v q c :
  deref (promises st) p = Some c -> alreadyResolved c = false ->
  as_thenable v = Some q -> q <> p ->
  resolve_fn p v st =
    subscribe q (RFollow p)
      (set_promises (store p {| pstate := pstate c; alreadyResolved := true;
                                reactions := reactions c |} (promises st)) st).
Proof.
  intros H Hl Hv Hq. unfold resolve_fn, is_locked, lock. rewrite H, Hl, Hv.
  by apply Nat.eqb_neq in Hq as ->.
Qed.

Lemma subscribe_pending st p r c :
  deref (promises st) p = Some c -> pstate c = Pending ->
  subscribe p r st =
    set_promises (store p {| pstate := Pending; alreadyResolved := alreadyResolved c;
                             reactions := reactions c ++ [r] |} (promises st)) st.
Proof. intros H Hp. unfold subscribe. by rewrite H, Hp. Qed.

Lemma subscribe_fulfilled st p r c v :
  deref (promises st) p = Some c -> pstate c = Fulfilled v ->
  subscribe p r st = set_jobs (jobs st ++ [React r (Ful v)]) st.
Proof. intros H Hp. unfold subscribe. by rewrite H, Hp. Qed.

Lemma subscribe_rejected st p r c e :
  deref (promises st) p = Some c -> pstate c = Rejected e ->
  subscribe p r st = set_jobs (jobs st ++ [React r (Rej e)]) st.
Proof. intros H Hp. unfold subscribe. by rewrite H, Hp. Qed.


Lemma drain_step fuel st j rest :
  jobs st = j :: rest ->
  drain toDataURL (S fuel) st = drain toDataURL fuel (run_job toDataURL j (set_jobs rest st)).
Proof. intros H. simpl. by rewrite H. Qed.


(** The executor when the handler returns [r] and lines 54-60 wrap a
    value [x] with [Promise.resolve]. *)
Lemma executor_wrapped ref o functionName h args st r st2 x :
  run_body (h (actuals o args)) (entered ref o functionName args st) = (Normal r, st2) ->
  wrap_retnValue r = Promise_resolve x ->
  executor ref o functionName h args st =
    (next (promises st),
     set_jobs (jobs st ++ [React (RFollow (next (promises st))) (Ful x)])
       (set_promises
          (store (next (promises st))
             {| pstate := Pending; alreadyResolved := true; reactions := [] |}
             (alloc {| pstate := Fulfilled x; alreadyResolved := true; reactions := [] |}
                (promises st2))) st2)).
Proof.
  intros Hrun Hwrap. rewrite executor_eq. cbv zeta. rewrite Hrun, Hwrap.
  apply entered_body in Hrun as (Hp & Hj & _ & _ & Hn & _).
  unfold Promise_resolve, new_promise, bind, ret. f_equal.
  erewrite resolve_fn_thenable;
    [|sproj; rewrite deref_alloc_ne by lia; exact Hp|reflexivity|reflexivity|lia].
  erewrite subscribe_fulfilled;
    [|sproj; rewrite deref_store_ne by lia; apply deref_alloc_eq|reflexivity].
  sproj. by rewrite Hj.
Qed.

Lemma wrap_falsy r : truthy r = false -> wrap_retnValue r = Promise_resolve VUndefined.
Proof. intros H. unfold wrap_retnValue. by rewrite H. Qed.

Lemma wrap_plain r :
  truthy r = true -> truthy (get r "then") = false -> wrap_retnValue r = Promise_resolve r.
Proof. intros H Ht. unfold wrap_retnValue. by rewrite H, Ht. Qed.

Lemma wrap_then r :
  truthy r = true -> truthy (get r "then") = true -> wrap_retnValue r = ret r.
Proof. intros H Ht. unfold wrap_retnValue. by rewrite H, Ht. Qed.


(** The handler returns an object whose [then] is truthy but which is not
    a promise: [resolve] fulfils with it. *)
Lemma executor_object ref o functionName h args st r st2 :
  run_body (h (actuals o args)) (entered ref o functionName args st) = (Normal r, st2) ->
  truthy r = true -> truthy (get r "then") = true -> as_thenable r = None ->
  executor ref o functionName h args st =
    (next (promises st),
     set_jobs (jobs st ++ [])
       (set_promises
          (store (next (promises st))
             {| pstate := Fulfilled r; alreadyResolved := true; reactions := [] |}
             (promises st2)) st2)).
Proof.
  intros Hrun Hr Ht Hn. rewrite executor_eq. cbv zeta. rewrite Hrun, (wrap_then _ Hr Ht).
  apply entered_body in Hrun as (Hp & Hj & _).
  unfold ret. f_equal.
  erewrite resolve_fn_value; [|exact Hp|reflexivity..|exact Hn].
  sproj. by rewrite Hj.
Qed.

(** The handler returns a promise [q]: the promise of the executor is
    locked onto it. *)
Lemma executor_promise ref o functionName h args st q st2 :
  run_body (h (actuals o args)) (entered ref o functionName args st)
    = (Normal (VNative (NPromise q)), st2) ->
  q <> next (promises st) ->
  executor ref o functionName h args st =
    (next (promises st),
     subscribe q (RFollow (next (promises st)))
       (set_promises
          (store (next (promises st))
             {| pstate := Pending; alreadyResolved := true; reactions := [] |}
             (promises st2)) st2)).
Proof.
  intros Hrun Hq. rewrite executor_eq. cbv zeta. rewrite Hrun.
  rewrite wrap_then by reflexivity.
  apply entered_body in Hrun as (Hp & Hj & _).
  unfold ret. f_equal.
  by erewrite resolve_fn_thenable; [|exact Hp|reflexivity..|exact Hq].
Qed.

Lemma Routes_ext st st' canvasId functionName ref o h :
  _canvasInterfaceInstanceMap st' = _canvasInterfaceInstanceMap st ->
  instances st' = instances st ->
  Routes st canvasId functionName ref o h -> Routes st' canvasId functionName ref o h.
Proof. intros Hm Hi [H1 H2 H3]. split; [by rewrite Hm | by rewrite Hi | done]. Qed.


Lemma InFlight_quiet st outer p q d cb : InFlight st outer p q d cb -> jobs st = [].
Proof. by intros []. Qed.

Lemma InFlight_ext st st' outer p q d cb :
  promises st' = promises st -> jobs st' = jobs st ->
  InFlight st outer p q d cb -> InFlight st' outer p q d cb.
Proof. intros Hp Hj [H1 H2 H3 H4 H5 H6]. split; rewrite ?Hp, ?Hj; done. Qed.

(** [_callCanvasReqHandler] followed by [then] on its result, when the
    handler returns a pending promise [q] of its own. *)
Lemma call_then_in_flight st canvasId functionName args ref o h q st2 outer cb :
  Routes st canvasId functionName ref o h ->
  jobs st = [] ->
  deref (promises st) outer = Some open_cell -> outer < next (promises st) ->
  run_body (h (actuals o args)) (entered ref o functionName args st)
    = (Normal (VNative (NPromise q)), st2) ->
  deref (promises st2) q = Some open_cell ->
  next (promises st) < q < next (promises st2) ->
  exists st3 st4,
    _callCanvasReqHandler canvasId functionName args st = (Normal (next (promises st)), st3) /\
    then_ (next (promises st)) cb st3 = (next (promises st2), st4) /\
    InFlight st4 outer (next (promises st)) q (next (promises st2)) cb /\
    invocations st4 = invocations (entered ref o functionName args st) /\
    _canvasInterfaceInstanceMap st4 = _canvasInterfaceInstanceMap st2 /\
    table_prototype st4 = table_prototype st2 /\
    instances st4 = instances st2 /\ bitmap st4 = bitmap st2 /\ images st4 = images st.
Proof.
  intros [H1 H2 H3] Hquiet Houter Hlt Hrun Hq Hrange.
  rewrite (callCanvasReqHandler_found _ _ _ _ _ _ _ H1 H2 H3).
  rewrite (executor_promise _ _ _ _ _ _ _ _ Hrun) by lia.
  pose proof (entered_body _ _ _ _ _ _ _ _ Hrun) as (Hp & Hj & Hi & Him & Hn & Hd).
  cbn [fst snd].
  erewrite subscribe_pending;
    [|sproj; rewrite deref_store_ne by lia; exact Hq|reflexivity].
  sproj. unfold then_, new_promise, bind, modify, ret.
  eexists _, _. split; [reflexivity|]. sproj. heap_simpl.
  erewrite subscribe_pending;
    [|sproj; rewrite deref_alloc_ne by (heap_simpl; lia);
      rewrite deref_store_ne by lia; apply deref_store_eq|reflexivity].
  sproj. split; [reflexivity|].
  split; [|by sproj].
  split; sproj.
  - rewrite deref_store_ne by lia. rewrite deref_alloc_ne by (heap_simpl; lia).
    rewrite !deref_store_ne by lia. rewrite Hd by lia. exact Houter.
  - apply deref_store_eq.
  - rewrite deref_store_ne by lia. rewrite deref_alloc_ne by (heap_simpl; lia).
    apply deref_store_eq.
  - rewrite deref_store_ne by lia.
    by apply deref_alloc_at.
  - lia.
  - by rewrite Hj.
Qed.



(** The promise of the handler is rejected: the rejection travels to [p]
    and to [d], where nothing is attached; no function that could settle
    [outer] is ever called. *)
Lemma in_flight_rejected st outer p q d cb e fuel :
  InFlight st outer p q d cb -> 2 <= fuel ->
  step toDataURL fuel (Settle q (Rej e)) st =
    set_jobs []
      (set_promises
         (store d (settled_cell (Rejected e))
            (store p (settled_cell (Rejected e))
               (store q (settled_cell (Rejected e)) (promises st)))) st).
Proof.
  intros [Ho Hp Hq Hd (Hop & Hoq & Hod & Hpq & Hpd & Hqd) Hj] Hfuel.
  destruct fuel as [|[|fuel]]; [lia..|].
  unfold step, task. erewrite reject_fn_open; [|exact Hq|reflexivity..].
  rewrite Hj. sproj. erewrite drain_step by reflexivity. cbn [run_job].
  erewrite settle_pending; [|sproj; rewrite deref_store_ne by lia; exact Hp|reflexivity].
  sproj. erewrite drain_step by reflexivity. cbn [run_job].
  erewrite reject_fn_open;
    [|sproj; rewrite !deref_store_ne by lia; exact Hd|reflexivity..].
  sproj. by apply drain_quiet.
Qed.

(** The promise of the handler is fulfilled with a value that is not a
    promise, in a dispatch of [_createImage]: the callback looks the
    instance up again and serialises its canvas. *)
Lemma in_flight_createImage_fulfilled st outer p q d canvasId imgFormat v ref o fuel :
  InFlight st outer p q d (CreateImageThen canvasId imgFormat outer) -> 2 <= fuel ->
  as_thenable v = None ->
  _getCanvasInstanceById canvasId st = Some (AnInstance ref o) ->
  step toDataURL fuel (Settle q (Ful v)) st =
    set_jobs []
      (set_promises
         (store d (settled_cell (Fulfilled VUndefined))
            (store outer
               (settled_cell
                  (Fulfilled
                     (VObj [("_strImage",
                             VStr (toDataURL (bitmap st (el (canvas o)))
                                     (if String.eqb imgFormat "png"
                                      then "image/png" else "image/jpeg")));
                            ("data", v)])))
               (store p (settled_cell (Fulfilled v))
                  (store q (settled_cell (Fulfilled v)) (promises st))))) st).
Proof.
  intros [Ho Hp Hq Hd (Hop & Hoq & Hod & Hpq & Hpd & Hqd) Hj] Hfuel Hv Hget.
  destruct fuel as [|[|fuel]]; [lia..|].
  unfold step, task. erewrite resolve_fn_value; [|exact Hq|reflexivity..|exact Hv].
  rewrite Hj. sproj. erewrite drain_step by reflexivity. cbn [run_job].
  erewrite settle_pending; [|sproj; rewrite deref_store_ne by lia; exact Hp|reflexivity].
  sproj. erewrite drain_step by reflexivity. cbn [run_job run_callback].
  rewrite (getCanvasInstanceById_ext st) by reflexivity. rewrite Hget.
  erewrite (resolve_fn_value _ outer);
    [|sproj; rewrite !deref_store_ne by lia; exact Ho|reflexivity..].
  sproj.
  erewrite resolve_fn_value;
    [|sproj; rewrite !deref_store_ne by lia; exact Hd|reflexivity..].
  sproj. by apply drain_quiet.
Qed.

(** The same in a dispatch of [_setImage]: the value is handed to
    [resolve] of the dispatch promise. *)
Lemma in_flight_setImage_fulfilled st outer p q d v fuel :
  InFlight st outer p q d (SetImageThen outer) -> 2 <= fuel ->
  as_thenable v = None ->
  step toDataURL fuel (Settle q (Ful v)) st =
    set_jobs []
      (set_promises
         (store d (settled_cell (Fulfilled VUndefined))
            (store outer (settled_cell (Fulfilled v))
               (store p (settled_cell (Fulfilled v))
                  (store q (settled_cell (Fulfilled v)) (promises st))))) st).
Proof.
  intros [Ho Hp Hq Hd (Hop & Hoq & Hod & Hpq & Hpd & Hqd) Hj] Hfuel Hv.
  destruct fuel as [|[|fuel]]; [lia..|].
  unfold step, task. erewrite resolve_fn_value; [|exact Hq|reflexivity..|exact Hv].
  rewrite Hj. sproj. erewrite drain_step by reflexivity. cbn [run_job].
  erewrite settle_pending; [|sproj; rewrite deref_store_ne by lia; exact Hp|reflexivity].
  sproj. erewrite drain_step by reflexivity. cbn [run_job run_callback].
  erewrite (resolve_fn_value _ outer);
    [|sproj; rewrite !deref_store_ne by lia; exact Ho|reflexivity..|exact Hv].
  sproj.
  erewrite resolve_fn_value;
    [|sproj; rewrite !deref_store_ne by lia; exact Hd|reflexivity..].
  sproj. by apply drain_quiet.
Qed.


(** *** Only the executor logs a call *)

Ltac frame_tac :=
  intros; repeat (case_match; try reflexivity); sproj; try reflexivity.

Lemma settle_invocations p o st : invocations (settle p o st) = invocations st.
Proof. unfold settle. frame_tac. Qed.

Lemma subscribe_invocations p r st : invocations (subscribe p r st) = invocations st.
Proof. unfold subscribe. frame_tac. Qed.

Lemma lock_invocations p st : invocations (lock p st) = invocations st.
Proof. unfold lock. frame_tac. Qed.

Lemma resolve_fn_invocations p v st : invocations (resolve_fn p v st) = invocations st.
Proof.
  unfold resolve_fn. repeat case_match; try reflexivity;
    rewrite ?settle_invocations, ?subscribe_invocations; apply lock_invocations.
Qed.

Lemma reject_fn_invocations p e st : invocations (reject_fn p e st) = invocations st.
Proof.
  unfold reject_fn. case_match; [reflexivity|].
  rewrite settle_invocations. apply lock_invocations.
Qed.

Lemma run_job_invocations j st : invocations (run_job toDataURL j st) = invocations st.
Proof.
  destruct j as [[cb d|target] [v|e]]; cbn [run_job];
    rewrite ?settle_invocations, ?reject_fn_invocations; try reflexivity.
  destruct cb as [outer|canvasId imgFormat outer]; cbn [run_callback].
  - by rewrite !resolve_fn_invocations.
  - destruct (_getCanvasInstanceById canvasId st) as [[ref o|]|].
    + by rewrite !resolve_fn_invocations.
    + by rewrite reject_fn_invocations.
    + by rewrite reject_fn_invocations.
Qed.

Lemma drain_invocations fuel st : invocations (drain toDataURL fuel st) = invocations st.
Proof.
  revert st. induction fuel as [|n IH]; intros st; [reflexivity|].
  simpl. destruct (jobs st) as [|j rest]; [reflexivity|].
  by rewrite IH, run_job_invocations.
Qed.

Lemma executor_invocations ref o functionName h args st :
  invocations (snd (executor ref o functionName h args st))
  = invocations st ++
      [{| inv_instance := ref; inv_name := functionName; inv_args := actuals o args |}].
Proof.
  rewrite executor_eq. cbv zeta.
  destruct (run_body _ _) as [[r|e] st2] eqn:Hrun;
    apply run_body_frame in Hrun as (_ & Hi & _).
  - unfold wrap_retnValue, Promise_resolve, new_promise, bind, ret.
    repeat case_match; simplify_eq; cbn [snd]; by rewrite resolve_fn_invocations.
  - cbn [snd]. by rewrite reject_fn_invocations.
Qed.

Lemma then_invocations p cb st : invocations (snd (then_ p cb st)) = invocations st.
Proof.
  unfold then_, new_promise, bind, modify, ret. cbn [snd].
  by rewrite subscribe_invocations.
Qed.

(** *** [_setImage] *)

Lemma setImage_eq canvasId functionName base64 args st :
  _setImage canvasId functionName base64 args st =
    (next (promises st),
     set_images
       (alloc {| src := Some base64;
                 onload := Some (OnLoadSetImage canvasId functionName args
                                   (next (promises st)));
                 loading := true |} (images st))
       (set_promises (alloc open_cell (promises st)) st)).
Proof. reflexivity. Qed.


Lemma task_ImageLoaded st image cell h :
  deref (images st) image = Some cell -> loading cell = true -> onload cell = Some h ->
  task (ImageLoaded image) st = run_onload image h (loaded image cell st).
Proof.
  intros H Hl Ho. unfold task, stop_loading, loaded. by rewrite H, Hl, Ho.
Qed.

Lemma task_ImageError st image cell :
  deref (images st) image = Some cell -> loading cell = true ->
  task (ImageError image) st = loaded image cell st.
Proof. intros H Hl. unfold task, stop_loading, loaded. by rewrite H, Hl. Qed.



Lemma createImage_in_flight st canvasId functionName imgFormat args ref o h :
  Routes st canvasId functionName ref o h -> Async h -> jobs st = [] ->
  exists q d st1,
    _createImage canvasId functionName imgFormat args st = (next (promises st), st1) /\
    InFlight st1 (next (promises st)) (S (next (promises st))) q d
      (CreateImageThen canvasId imgFormat (next (promises st))) /\
    invocations st1 = invocations st ++ [invocation ref o functionName args] /\
    images st1 = images st.
Proof.
  intros Hroute Hasync Hquiet.
  set (st0 := set_promises (alloc open_cell (promises st)) st).
  destruct (Hasync (actuals o args) (entered ref o functionName args st0))
    as (q & st2 & Hrun & Hq & Hrange).
  unfold entered, st0 in Hrange. sproj. rewrite !next_alloc in Hrange.
  destruct (call_then_in_flight st0 canvasId functionName args ref o h q st2
              (next (promises st))
              (CreateImageThen canvasId imgFormat (next (promises st))))
    as (st3 & st4 & Hcall & Hthen & Hfl & Hinv & _ & _ & _ & _ & Him);
    [by eapply Routes_ext; [..|exact Hroute]|done|apply deref_alloc_eq
    |unfold st0; sproj; heap_simpl; lia|done|done
    |unfold st0; sproj; heap_simpl; lia|].
  exists q, (next (promises st2)), st4.
  unfold _createImage, new_promise, bind at 1 2. fold st0.
  rewrite Hcall. unfold bind, ret. rewrite Hthen.
  split; [reflexivity|]. split; [exact Hfl|]. by rewrite Hinv, Him.
Qed.


Lemma setImage_loaded_in_flight st canvasId functionName base64 args ref o h :
  Routes st canvasId functionName ref o h -> Async h -> jobs st = [] ->
  exists q d,
    InFlight (task (ImageLoaded (next (images st)))
                (snd (_setImage canvasId functionName base64 args st)))
      (next (promises st)) (S (next (promises st))) q d
      (SetImageThen (next (promises st))) /\
    invocations (task (ImageLoaded (next (images st)))
                   (snd (_setImage canvasId functionName base64 args st)))
    = invocations st ++
        [invocation ref o functionName (VNative (NImageElement (next (images st))) :: args)].
Proof.
  intros Hroute Hasync Hquiet. rewrite setImage_eq. cbn [snd].
  erewrite task_ImageLoaded; [|sproj; apply deref_alloc_eq|reflexivity..].
  cbn [run_onload].
  set (image := next (images st)).
  set (st0 := loaded image _ _).
  destruct (Hasync (actuals o (VNative (NImageElement image) :: args))
              (entered ref o functionName (VNative (NImageElement image) :: args) st0))
    as (q & st2 & Hrun & Hq & Hrange).
  unfold entered, st0, loaded in Hrange. sproj. rewrite !next_alloc in Hrange.
  destruct (call_then_in_flight st0 canvasId functionName
              (VNative (NImageElement image) :: args) ref o h q st2
              (next (promises st)) (SetImageThen (next (promises st))))
    as (st3 & st4 & Hcall & Hthen & Hfl & Hinv & _);
    [by eapply Routes_ext; [..|exact Hroute]|done|apply deref_alloc_eq
    |unfold st0, loaded; sproj; heap_simpl; lia|done|done
    |unfold st0, loaded; sproj; heap_simpl; lia|].
  exists q, (next (promises st2)).
  rewrite Hcall, Hthen. cbn [snd]. split; [exact Hfl|]. by rewrite Hinv.
Qed.


(** *** Promises nothing can settle *)

Section Sealing.
Variable x : nat.
Variable s : PState.



(** Changes outside the promises, the queue and the images. *)
Lemma Sealed_ext st st' :
  promises st' = promises st -> jobs st' = jobs st -> images st' = images st ->
  Sealed x s st -> Sealed x s st'.
Proof.
  intros Hp Hj Hi [Hs Ha [Hr Hjs Him]].
  split; [|by rewrite Hp|split]; unfold state_of_promise; rewrite ?Hp, ?Hj, ?Hi; done.
Qed.

Lemma Sealed_store st p c :
  Sealed x s st -> (p = x -> pstate c = s) ->
  Forall (fun r => holds x r = false) (reactions c) ->
  Sealed x s (set_promises (store p c (promises st)) st).
Proof.
  intros [Hs Ha [Hr Hjs Him]] Hpx Hc. split; [| |split]; sproj; try done.
  - unfold state_of_promise in *. sproj. destruct (decide (p = x)) as [->|Hne].
    + rewrite deref_store_eq. simpl. by rewrite Hpx.
    + by rewrite deref_store_ne.
  - intros q c' Hq. apply deref_store_inv in Hq as [[-> ->]|[_ Hq]]; [done|by eapply Hr].
Qed.

Lemma Sealed_alloc st c :
  Sealed x s st -> Forall (fun r => holds x r = false) (reactions c) ->
  Sealed x s (set_promises (alloc c (promises st)) st).
Proof.
  intros [Hs Ha [Hr Hjs Him]] Hc. split; [| |split]; sproj; try done.
  - unfold state_of_promise in *. sproj. by rewrite deref_alloc_ne by lia.
  - rewrite next_alloc. lia.
  - intros q c' Hq. apply deref_alloc_inv in Hq as [[-> ->]|[_ Hq]]; [done|by eapply Hr].
Qed.

Lemma Sealed_jobs st js :
  Sealed x s st -> Forall (fun j => job_holds x j = false) js ->
  Sealed x s (set_jobs js st).
Proof. intros [Hs Ha [Hr Hjs Him]] Hjs'. split; [| |split]; sproj; done. Qed.

Lemma Sealed_cell st p c :
  Sealed x s st -> deref (promises st) p = Some c ->
  Forall (fun r => holds x r = false) (reactions c).
Proof. intros [_ _ [Hr _ _]] H. by eapply Hr. Qed.

Lemma Sealed_state st c :
  Sealed x s st -> deref (promises st) x = Some c -> pstate c = s.
Proof.
  intros [Hs _ _] H. unfold state_of_promise in Hs. rewrite H in Hs. by inversion Hs.
Qed.

Lemma Sealed_queue st : Sealed x s st -> Forall (fun j => job_holds x j = false) (jobs st).
Proof. by intros [_ _ [_ Hj _]]. Qed.

Lemma settle_sealed st p o : Sealed x s st -> p <> x -> Sealed x s (settle p o st).
Proof.
  intros Hst Hp. unfold settle.
  destruct (deref (promises st) p) as [c|] eqn:Hc; [|done].
  destruct (pstate c); [|done..].
  apply Sealed_jobs.
  - apply Sealed_store; [done|done|constructor].
  - sproj. apply Forall_app. split; [by apply Sealed_queue|].
    apply Forall_map. eapply Forall_impl; [by eapply Sealed_cell|]. done.
Qed.

Lemma subscribe_sealed st p r :
  Sealed x s st -> holds x r = false -> Sealed x s (subscribe p r st).
Proof.
  intros Hst Hr. unfold subscribe.
  destruct (deref (promises st) p) as [c|] eqn:Hc; [|done].
  destruct (pstate c) as [|v|e] eqn:Hs.
  - apply Sealed_store; [done| |].
    + intros ->. sproj. rewrite <- Hs. by eapply Sealed_state.
    + sproj. apply Forall_app. split; [by eapply Sealed_cell|by constructor].
  - apply Sealed_jobs; [done|]. apply Forall_app. split; [by apply Sealed_queue|by constructor].
  - apply Sealed_jobs; [done|]. apply Forall_app. split; [by apply Sealed_queue|by constructor].
Qed.

Lemma lock_sealed st p : Sealed x s st -> p <> x -> Sealed x s (lock p st).
Proof.
  intros Hst Hp. unfold lock.
  destruct (deref (promises st) p) as [c|] eqn:Hc; [|done].
  apply Sealed_store; [done|done|]. sproj. by eapply Sealed_cell.
Qed.

Lemma resolve_fn_sealed st p v : Sealed x s st -> p <> x -> Sealed x s (resolve_fn p v st).
Proof.
  intros Hst Hp. unfold resolve_fn.
  destruct (is_locked p st); [done|].
  destruct (as_thenable v) as [q|].
  - destruct (Nat.eqb q p).
    + apply settle_sealed; [by apply lock_sealed|done].
    + apply subscribe_sealed; [by apply lock_sealed|]. simpl. by apply Nat.eqb_neq.
  - apply settle_sealed; [by apply lock_sealed|done].
Qed.

Lemma reject_fn_sealed st p e : Sealed x s st -> p <> x -> Sealed x s (reject_fn p e st).
Proof.
  intros Hst Hp. unfold reject_fn.
  destruct (is_locked p st); [done|]. apply settle_sealed; [by apply lock_sealed|done].
Qed.

Lemma new_promise_sealed st init :
  Sealed x s st ->
  Sealed x s (snd (new_promise init st)) /\ fst (new_promise init st) <> x.
Proof.
  intros Hst. unfold new_promise. cbn [fst snd]. split.
  - apply Sealed_alloc; [done|constructor].
  - destruct Hst as [_ Ha _]. lia.
Qed.

Lemma constructor_sealed st c : Sealed x s st -> Sealed x s (snd (constructor c st)).
Proof.
  intros Hst. destruct (constructor_frame c st) as (Hp & Hj & _ & Hi & _).
  by eapply Sealed_ext; [..|exact Hst].
Qed.

Lemma register_sealed st i hs : Sealed x s st -> Sealed x s (register i hs st).
Proof.
  intros Hst. unfold register. case_match; [|done].
  by eapply Sealed_ext; [..|exact Hst].
Qed.

Lemma run_body_sealed b st :
  Sealed x s st -> Sealed x s (snd (run_body b st)).
Proof.
  revert st. induction b as [v|e|init k IH|cv k IH|target px k IH]; intros st Hst;
    simpl; unfold bind, ret, modify; try done.
  - destruct (new_promise init st) as [q st1] eqn:Hnew.
    apply IH. pose proof (new_promise_sealed st init Hst) as [H _]. by rewrite Hnew in H.
  - destruct (constructor cv st) as [i st1] eqn:Hnew.
    apply IH. pose proof (constructor_sealed st cv Hst) as H. by rewrite Hnew in H.
  - apply IH. by eapply Sealed_ext; [..|exact Hst].
Qed.


Lemma Sealed_images_store st i c :
  Sealed x s st ->
  (forall h, loading c = true -> onload c = Some h -> onload_holds x h = false) ->
  Sealed x s (set_images (store i c (images st)) st).
Proof.
  intros [Hs Ha [Hr Hjs Him]] Hc. split; [| |split]; sproj; try done.
  intros j c' h Hj. apply deref_store_inv in Hj as [[-> ->]|[_ Hj]]; [apply Hc|by eapply Him].
Qed.

Lemma Sealed_images_alloc st c :
  Sealed x s st ->
  (forall h, loading c = true -> onload c = Some h -> onload_holds x h = false) ->
  Sealed x s (set_images (alloc c (images st)) st).
Proof.
  intros [Hs Ha [Hr Hjs Him]] Hc. split; [| |split]; sproj; try done.
  intros j c' h Hj. apply deref_alloc_inv in Hj as [[-> ->]|[_ Hj]]; [apply Hc|by eapply Him].
Qed.

Lemma executor_sealed ref o functionName h args st :
  Sealed x s st -> Sealed x s (snd (executor ref o functionName h args st)).
Proof.
  intros Hst. rewrite executor_eq. cbv zeta.
  assert (next (promises st) <> x) as Hp by (destruct Hst as [_ Ha _]; lia).
  assert (Sealed x s (entered ref o functionName args st)) as Hent.
  { unfold entered.
    apply (Sealed_ext (set_promises (alloc open_cell (promises st)) st)); [reflexivity..|].
    apply Sealed_alloc; [done|constructor]. }
  pose proof (run_body_sealed (h (actuals o args)) _ Hent) as Hbody.
  destruct (run_body _ _) as [[r|e] st2]; cbn [snd] in Hbody |- *.
  - unfold wrap_retnValue, Promise_resolve, bind, ret.
    repeat case_match; simplify_eq; cbn [snd];
      apply resolve_fn_sealed; try done;
      match goal with
      | H : new_promise ?i ?st' = _ |- _ =>
          pose proof (new_promise_sealed st' i Hbody) as [Hn _]; by rewrite H in Hn
      end.
  - by apply reject_fn_sealed.
Qed.

Lemma callCanvasReqHandler_sealed canvasId functionName args st :
  Sealed x s st -> Sealed x s (snd (_callCanvasReqHandler canvasId functionName args st)).
Proof.
  intros Hst. unfold _callCanvasReqHandler.
  destruct (_getCanvasInstanceById canvasId st) as [[ref o|]|]; [|done..].
  destruct (member (canvasReqHandlers o) functionName) as [h|]; [|done].
  unfold bind, ret. pose proof (executor_sealed ref o functionName h args st Hst) as H.
  by destruct (executor ref o functionName h args st).
Qed.

Lemma then_sealed p cb st :
  Sealed x s st -> cb_outer cb <> x -> Sealed x s (snd (then_ p cb st)).
Proof.
  intros Hst Hcb. unfold then_, bind, modify, ret.
  destruct (new_promise Pending st) as [d st1] eqn:Hnew. cbn [snd].
  pose proof (new_promise_sealed st Pending Hst) as [H Hd]. rewrite Hnew in H, Hd.
  cbn [fst snd] in H, Hd. apply subscribe_sealed; [done|]. simpl.
  apply orb_false_iff. split; by apply Nat.eqb_neq.
Qed.

Lemma createImage_sealed canvasId functionName imgFormat args st :
  Sealed x s st -> Sealed x s (snd (_createImage canvasId functionName imgFormat args st)).
Proof.
  intros Hst. unfold _createImage, bind, modify, ret.
  destruct (new_promise Pending st) as [outer st1] eqn:Hnew.
  pose proof (new_promise_sealed st Pending Hst) as [H Houter]. rewrite Hnew in H, Houter.
  cbn [fst snd] in H, Houter.
  pose proof (callCanvasReqHandler_sealed canvasId functionName args st1 H) as Hcall.
  destruct (_callCanvasReqHandler canvasId functionName args st1) as [[p|e] st2];
    cbn [snd] in Hcall.
  - pose proof (then_sealed p (CreateImageThen canvasId imgFormat outer) st2 Hcall Houter) as Ht.
    by destruct (then_ p _ st2).
  - by apply reject_fn_sealed.
Qed.

Lemma setImage_sealed canvasId functionName base64 args st :
  Sealed x s st -> Sealed x s (snd (_setImage canvasId functionName base64 args st)).
Proof.
  intros Hst. rewrite setImage_eq. cbn [snd].
  apply (Sealed_images_alloc (set_promises (alloc open_cell (promises st)) st)).
  - apply Sealed_alloc; [done|constructor].
  - intros h _ [= <-]. simpl. apply Nat.eqb_neq. destruct Hst as [_ Ha _]. lia.
Qed.

Lemma run_onload_sealed image h st :
  Sealed x s st -> onload_holds x h = false -> Sealed x s (run_onload image h st).
Proof.
  intros Hst Hh. destruct h as [canvasId functionName args outer]. simpl in Hh.
  apply Nat.eqb_neq in Hh. cbn [run_onload].
  pose proof (callCanvasReqHandler_sealed canvasId functionName
                ([VNative (NImageElement image)] ++ args) st Hst) as Hcall.
  destruct (_callCanvasReqHandler _ _ _ st) as [[p|e] st1]; cbn [snd] in Hcall.
  - by apply then_sealed.
  - by apply reject_fn_sealed.
Qed.

Lemma stop_loading_sealed image st : Sealed x s st -> Sealed x s (stop_loading image st).
Proof.
  intros Hst. unfold stop_loading. case_match; [|done].
  apply Sealed_images_store; [done|]. intros h Hl. discriminate.
Qed.

Lemma run_callback_sealed cb v st :
  Sealed x s st -> cb_outer cb <> x -> Sealed x s (snd (run_callback toDataURL cb v st)).
Proof.
  intros Hst Hcb. destruct cb as [outer|canvasId imgFormat outer]; cbn [run_callback].
  - by apply resolve_fn_sealed.
  - destruct (_getCanvasInstanceById canvasId st) as [[ref o|]|]; [|done..].
    by apply resolve_fn_sealed.
Qed.

Lemma run_job_sealed j st :
  Sealed x s st -> job_holds x j = false -> Sealed x s (run_job toDataURL j st).
Proof.
  intros Hst Hj. destruct j as [[cb d|target] [v|e]]; simpl in Hj; cbn [run_job].
  - apply orb_false_iff in Hj as [Hcb Hd]. apply Nat.eqb_neq in Hcb, Hd.
    pose proof (run_callback_sealed cb v st Hst Hcb) as H.
    destruct (run_callback toDataURL cb v st) as [[u|e] st1]; cbn [snd] in H.
    + by apply resolve_fn_sealed.
    + by apply reject_fn_sealed.
  - apply orb_false_iff in Hj as [Hcb Hd]. apply Nat.eqb_neq in Hd.
    by apply reject_fn_sealed.
  - apply Nat.eqb_neq in Hj. by apply settle_sealed.
  - apply Nat.eqb_neq in Hj. by apply settle_sealed.
Qed.

Lemma drain_sealed fuel st : Sealed x s st -> Sealed x s (drain toDataURL fuel st).
Proof.
  revert st. induction fuel as [|n IH]; intros st Hst; [done|].
  simpl. destruct (jobs st) as [|j rest] eqn:Hjobs; [done|].
  pose proof (Sealed_queue _ Hst) as Hq. rewrite Hjobs in Hq.
  apply Forall_cons in Hq as [Hj Hrest].
  apply IH, run_job_sealed; [|done]. by apply Sealed_jobs.
Qed.

Lemma task_sealed ev st : Sealed x s st -> spares x ev -> Sealed x s (task ev st).
Proof.
  intros Hst Hev. destruct ev as [c|i hs|cid fn b64 args|cid fn fmt args|image|image|p [v|e]];
    cbn [task].
  - by apply constructor_sealed.
  - by apply register_sealed.
  - by apply setImage_sealed.
  - by apply createImage_sealed.
  - destruct (deref (images st) image) as [cell|] eqn:Hcell; [|done].
    destruct (loading cell) eqn:Hl; [|done].
    destruct (onload cell) as [h|] eqn:Hh; [|by apply stop_loading_sealed].
    apply run_onload_sealed; [by apply stop_loading_sealed|].
    destruct Hst as [_ _ [_ _ Him]]. by eapply Him.
  - destruct (deref (images st) image) as [cell|]; [|done].
    destruct (loading cell); [|done]. by apply stop_loading_sealed.
  - by apply resolve_fn_sealed.
  - by apply reject_fn_sealed.
Qed.

Lemma step_sealed fuel ev st :
  Sealed x s st -> spares x ev -> Sealed x s (step toDataURL fuel ev st).
Proof. intros. apply drain_sealed. by apply task_sealed. Qed.

Lemma run_sealed fuel evs st :
  Sealed x s st -> Forall (spares x) evs -> Sealed x s (run toDataURL fuel evs st).
Proof.
  revert st. induction evs as [|ev evs IH]; intros st Hst Hevs; [done|].
  apply Forall_cons in Hevs as [Hev Hevs]. simpl.
  apply IH; [by apply step_sealed|done].
Qed.




Lemma Unheld_fresh st :
  Unheld (next (promises st)) st -> x = next (promises st) -> s = Pending ->
  Sealed x s (set_promises (alloc open_cell (promises st)) st).
Proof.
  intros [Hr Hj Hi] Hx Hs. split; [| |split]; sproj; try done.
  - unfold state_of_promise. sproj. by rewrite Hx, Hs, deref_alloc_eq.
  - rewrite next_alloc. lia.
  - intros q c Hq. apply deref_alloc_inv in Hq as [[-> ->]|[_ Hq]]; [constructor|].
    rewrite Hx. by eapply Hr.
  - by rewrite Hx.
  - rewrite Hx. intros. by eapply Hi.
Qed.

(** After [p.then(cb)] on a pending [p], the only thing that may hold [x]
    is the reaction list of [p]. *)
Lemma then_sealed_but p cb st d st' c c' :
  Sealed x s st -> then_ p cb st = (d, st') ->
  deref (promises st') p = Some c -> pstate c = Pending -> p <> x ->
  reactions c' = [] ->
  Sealed x s (set_promises (store p c' (promises st')) st').
Proof.
  intros Hst Hthen Hc Hp Hpx Hc'.
  unfold then_, new_promise, bind, modify, ret in Hthen. sproj.
  injection Hthen as Hd Hst'.
  assert (Sealed x s (set_promises (alloc open_cell (promises st)) st)) as Hst0
    by (apply Sealed_alloc; [done|constructor]).
  assert (promises st' = store p c (alloc open_cell (promises st))
          /\ jobs st' = jobs st /\ images st' = images st) as (Hprom & Hjobs & Himg).
  { clear Hd. subst st'. unfold subscribe in *. sproj.
    destruct (deref (alloc open_cell (promises st)) p) as [c0|] eqn:Hc0.
    - destruct (pstate c0) eqn:Hs0; sproj.
      + rewrite deref_store_eq in Hc. inversion Hc. done.
      + rewrite Hc0 in Hc. inversion Hc. subst c0. congruence.
      + rewrite Hc0 in Hc. inversion Hc. subst c0. congruence.
    - sproj. congruence. }
  rewrite Hprom, store_store.
  apply (Sealed_ext (set_promises (store p c' (alloc open_cell (promises st))) st));
    [reflexivity|exact Hjobs|exact Himg|].
  apply (Sealed_store (set_promises (alloc open_cell (promises st)) st));
    [done|done|by rewrite Hc'].
Qed.

(** Once the handler's promise is rejected in a dispatch in flight,
    nothing is left that could settle the dispatch promise. *)
Lemma in_flight_rejected_sealed st outer p q d cb e fuel :
  InFlight st outer p q d cb -> 2 <= fuel -> x = outer ->
  (forall c', reactions c' = [] -> Sealed x s (set_promises (store p c' (promises st)) st)) ->
  Sealed x s (step toDataURL fuel (Settle q (Rej e)) st).
Proof.
  intros Hfl Hfuel Hx Hbut. subst outer.
  rewrite (in_flight_rejected _ _ _ _ _ _ e _ Hfl Hfuel).
  destruct Hfl as [Ho Hp Hq Hd (Hop & Hoq & Hod & Hpq & Hpd & Hqd) Hj].
  apply Sealed_jobs; [|constructor].
  rewrite (store_comm _ p q) by done.
  apply (Sealed_store (set_promises (store q _ (store p _ (promises st))) st));
    [|done|constructor].
  apply (Sealed_store (set_promises (store p _ (promises st)) st));
    [|done|constructor].
  by apply Hbut.
Qed.

End Sealing.

Lemma createImage_sealed_but st canvasId functionName imgFormat args ref o h q d c'
    outer st1 :
  Routes st canvasId functionName ref o h ->
  Unheld (next (promises st)) st ->
  _createImage canvasId functionName imgFormat args st = (outer, st1) ->
  InFlight st1 (next (promises st)) (S (next (promises st))) q d
    (CreateImageThen canvasId imgFormat (next (promises st))) ->
  reactions c' = [] ->
  Sealed (next (promises st)) Pending
    (set_promises (store (S (next (promises st))) c' (promises st1)) st1).
Proof.
  intros Hroute Hun Hcreate Hfl Hc'.
  unfold _createImage, bind, modify, ret in Hcreate.
  unfold new_promise at 1 in Hcreate. set (st0 := set_promises _ st) in Hcreate.
  assert (Routes st0 canvasId functionName ref o h) as [H1 H2 H3]
    by (eapply Routes_ext; [..|exact Hroute]; reflexivity).
  rewrite (callCanvasReqHandler_found _ _ _ _ _ _ _ H1 H2 H3), executor_fst in Hcreate.
  assert (Sealed (next (promises st)) Pending st0) as Hst0 by by apply Unheld_fresh.
  pose proof (executor_sealed _ _ ref o functionName h args st0 Hst0) as Hst3.
  destruct (then_ _ _ (snd (executor ref o functionName h args st0))) as [d' st4] eqn:Hthen.
  injection Hcreate as _ Hst1. subst st4.
  destruct Hfl as [Ho Hp Hq Hd (Hop & Hoq & Hod & Hpq & Hpd & Hqd) Hj].
  eapply then_sealed_but; [exact Hst3|exact Hthen|exact Hp|reflexivity|lia|exact Hc'].
Qed.

(** Once the load or the error event of the image of a [_setImage] call
    has been taken, the image no longer holds the dispatch promise. *)
Lemma setImage_handled_sealed st canvasId functionName base64 args :
  Unheld (next (promises st)) st ->
  Sealed (next (promises st)) Pending
    (loaded (next (images st))
       {| src := Some base64;
          onload := Some (OnLoadSetImage canvasId functionName args (next (promises st)));
          loading := true |}
       (snd (_setImage canvasId functionName base64 args st))).
Proof.
  intros Hun. rewrite setImage_eq. cbn [snd].
  destruct (Unheld_fresh _ _ st Hun eq_refl eq_refl) as [Hs Ha [Hr Hjs Him]].
  split; [exact Hs|exact Ha|split; [exact Hr|exact Hjs|]].
  intros j c h0 Hj Hl Hh. unfold loaded in Hj. sproj.
  apply deref_store_inv in Hj as [[-> ->]|[Hne Hj]]; [discriminate Hl|].
  rewrite deref_alloc_ne in Hj by done. by eapply Him.
Qed.

Lemma setImage_loaded_sealed_but st canvasId functionName base64 args ref o h q d c' :
  Routes st canvasId functionName ref o h ->
  Unheld (next (promises st)) st ->
  InFlight (task (ImageLoaded (next (images st)))
              (snd (_setImage canvasId functionName base64 args st)))
    (next (promises st)) (S (next (promises st))) q d
    (SetImageThen (next (promises st))) ->
  reactions c' = [] ->
  Sealed (next (promises st)) Pending
    (set_promises
       (store (S (next (promises st))) c'
          (promises (task (ImageLoaded (next (images st)))
                      (snd (_setImage canvasId functionName base64 args st)))))
       (task (ImageLoaded (next (images st)))
          (snd (_setImage canvasId functionName base64 args st)))).
Proof.
  intros Hroute Hun. rewrite setImage_eq. cbn [snd].
  erewrite task_ImageLoaded; [|sproj; apply deref_alloc_eq|reflexivity..].
  cbn [run_onload].
  set (image := next (images st)).
  set (st0 := loaded image _ _).
  assert (Routes st0 canvasId functionName ref o h) as [H1 H2 H3]
    by (eapply Routes_ext; [..|exact Hroute]; reflexivity).
  rewrite (callCanvasReqHandler_found _ _ _ _ _ _ _ H1 H2 H3), executor_fst.
  assert (Sealed (next (promises st)) Pending st0) as Hst0.
  { pose proof (setImage_handled_sealed st canvasId functionName base64 args Hun) as H.
    by rewrite setImage_eq in H. }
  pose proof (executor_sealed _ _ ref o functionName h
                (VNative (NImageElement image) :: args) st0 Hst0) as Hst3.
  destruct (then_ _ _ (snd (executor ref o functionName h _ st0))) as [d' st4] eqn:Hthen.
  cbn [snd]. intros Hfl Hc'.
  destruct Hfl as [Ho Hp Hq Hd (Hop & Hoq & Hod & Hpq & Hpd & Hqd) Hj].
  eapply then_sealed_but; [exact Hst3|exact Hthen|exact Hp|reflexivity|lia|exact Hc'].
Qed.

(** C1: in a dispatch through [_createImage], and in one through
    [_setImage] once the image has loaded, whose handler returns a promise
    that is later rejected with [v]: the rejection reaches the promise of
    the executor and the promise returned by [then], which nothing is
    attached to (an unhandled rejection), while the dispatch promise is
    still pending when the microtask queue is empty again. From then on it
    stays pending whatever happens in the page, as no reaction, job or
    [onload] holds its [resolve] or [reject] (provided nothing in the
    starting state referred to the promise about to be created). *)
Theorem C1_rejection_of_handler_promise_is_lost
    st canvasId functionName imgFormat base64 args ref o h v fuel :
  Routes st canvasId functionName ref o h -> Async h -> jobs st = [] -> 2 <= fuel ->
  (let (outer, st1) := _createImage canvasId functionName imgFormat args st in
   exists p q d,
     InFlight st1 outer p q d (CreateImageThen canvasId imgFormat outer) /\
     let st2 := step toDataURL fuel (Settle q (Rej v)) st1 in
     state_of_promise st2 p = Some (Rejected v) /\
     state_of_promise st2 outer = Some Pending /\
     unhandled_rejection st2 d v /\ jobs st2 = [] /\
     (Unheld outer st -> forall evs, Forall (spares outer) evs ->
        state_of_promise (run toDataURL fuel evs st2) outer = Some Pending)) /\
  (let (outer, st1) := _setImage canvasId functionName base64 args st in
   let st1' := step toDataURL fuel (ImageLoaded (next (images st))) st1 in
   exists p q d,
     InFlight st1' outer p q d (SetImageThen outer) /\
     let st2 := step toDataURL fuel (Settle q (Rej v)) st1' in
     state_of_promise st2 p = Some (Rejected v) /\
     state_of_promise st2 outer = Some Pending /\
     unhandled_rejection st2 d v /\ jobs st2 = [] /\
     (Unheld outer st -> forall evs, Forall (spares outer) evs ->
        state_of_promise (run toDataURL fuel evs st2) outer = Some Pending)).
Proof.
  intros Hroute Hasync Hquiet Hfuel.
  assert (forall st1 outer p q d cb, InFlight st1 outer p q d cb ->
            let st2 := step toDataURL fuel (Settle q (Rej v)) st1 in
            state_of_promise st2 p = Some (Rejected v) /\
            state_of_promise st2 outer = Some Pending /\
            unhandled_rejection st2 d v /\ jobs st2 = []) as Hlost.
  { intros st1 outer p q d cb Hfl. cbv zeta.
    rewrite (in_flight_rejected _ _ _ _ _ _ v _ Hfl Hfuel).
    destruct Hfl as [Ho Hp Hq Hd (Hop & Hoq & Hod & Hpq & Hpd & Hqd) Hj].
    unfold state_of_promise, unhandled_rejection. sproj. repeat split.
    - rewrite deref_store_ne by lia. by rewrite deref_store_eq.
    - rewrite !deref_store_ne by lia. by rewrite Ho.
    - eexists. split; [apply deref_store_eq|done]. }
  split.
  - destruct (createImage_in_flight st canvasId functionName imgFormat args ref o h)
      as (q & d & st1 & Hcreate & Hfl & _); [done..|].
    rewrite Hcreate.
    exists (S (next (promises st))), q, d. split; [exact Hfl|].
    destruct (Hlost _ _ _ _ _ _ Hfl) as (H1 & H2 & H3 & H4).
    cbv zeta. do 4 (split; [done|]).
    intros Hun evs Hevs. apply (sl_state (next (promises st)) Pending).
    apply run_sealed; [|done].
    eapply in_flight_rejected_sealed; [exact Hfl|exact Hfuel|reflexivity|].
    intros c' Hc'. by eapply createImage_sealed_but.
  - destruct (setImage_loaded_in_flight st canvasId functionName base64 args ref o h)
      as (q & d & Hfl & _); [done..|].
    pose proof (fun c' => setImage_loaded_sealed_but st canvasId functionName base64 args
                            ref o h q d c' Hroute) as Hbut.
    rewrite setImage_eq in Hfl, Hbut |- *. cbn [snd] in Hfl, Hbut. cbv beta iota zeta.
    set (st1 := set_images _ _) in *.
    assert (step toDataURL fuel (ImageLoaded (next (images st))) st1
            = task (ImageLoaded (next (images st))) st1) as ->
      by apply drain_quiet, (InFlight_quiet _ _ _ _ _ _ Hfl).
    exists (S (next (promises st))), q, d. split; [exact Hfl|].
    destruct (Hlost _ _ _ _ _ _ Hfl) as (H1 & H2 & H3 & H4).
    do 4 (split; [done|]).
    intros Hun evs Hevs. apply (sl_state (next (promises st)) Pending).
    apply run_sealed; [|done].
    eapply in_flight_rejected_sealed; [exact Hfl|exact Hfuel|reflexivity|].
    intros c' Hc'. by apply Hbut.
Qed.

(** C10: in a dispatch through [_createImage] whose handler returns a
    promise, the [then] callback that runs when this promise is fulfilled
    with [v] looks the canvas id up again: whatever instance the table gives
    for the id in the state of that moment, the dispatch promise is resolved
    with the [toDataURL] of the bitmap of that instance's canvas, and [v] as
    data. In particular, when [new NSCanvasInterface(c2)] ran for the same
    id in between, the image is the one of [c2], not the one of the canvas
    handed to the handler; no second handler is called. *)
Theorem C10_image_read_from_instance_registered_at_settlement
    st canvasId functionName imgFormat args ref o h v fuel :
  Routes st canvasId functionName ref o h -> Async h -> jobs st = [] ->
  as_thenable v = None -> 2 <= fuel ->
  let (outer, st1) := _createImage canvasId functionName imgFormat args st in
  let mime := if String.eqb imgFormat "png" then "image/png" else "image/jpeg" in
  exists p q d,
    InFlight st1 outer p q d (CreateImageThen canvasId imgFormat outer) /\
    invocations st1 = invocations st ++ [invocation ref o functionName args] /\
    (forall st2 ref' o',
       promises st2 = promises st1 -> jobs st2 = jobs st1 ->
       _getCanvasInstanceById canvasId st2 = Some (AnInstance ref' o') ->
       let st3 := step toDataURL fuel (Settle q (Ful v)) st2 in
       state_of_promise st3 outer
         = Some (Fulfilled
                   (VObj [("_strImage", VStr (toDataURL (bitmap st2 (el (canvas o'))) mime));
                          ("data", v)])) /\
       invocations st3 = invocations st2) /\
    (forall c2, id c2 = canvasId ->
       let st2 := step toDataURL fuel (Construct c2) st1 in
       let st3 := step toDataURL fuel (Settle q (Ful v)) st2 in
       _getCanvasInstanceById canvasId st2
         = Some (AnInstance (next (instances st1))
                   {| canvas := c2; canvasReqHandlers := ∅ |}) /\
       state_of_promise st3 outer
         = Some (Fulfilled
                   (VObj [("_strImage", VStr (toDataURL (bitmap st1 (el c2)) mime));
                          ("data", v)])) /\
       invocations st3 = invocations st1).
Proof.
  intros Hroute Hasync Hquiet Hv Hfuel.
  destruct (createImage_in_flight st canvasId functionName imgFormat args ref o h)
    as (q & d & st1 & -> & Hfl & Hinv & _); [done..|].
  cbv zeta.
  exists (S (next (promises st))), q, d. split; [exact Hfl|]. split; [exact Hinv|].
  assert (forall st2 ref' o',
            promises st2 = promises st1 -> jobs st2 = jobs st1 ->
            _getCanvasInstanceById canvasId st2 = Some (AnInstance ref' o') ->
            state_of_promise (step toDataURL fuel (Settle q (Ful v)) st2) (next (promises st))
              = Some (Fulfilled
                        (VObj [("_strImage",
                                VStr (toDataURL (bitmap st2 (el (canvas o')))
                                        (if String.eqb imgFormat "png"
                                         then "image/png" else "image/jpeg")));
                               ("data", v)])) /\
            invocations (step toDataURL fuel (Settle q (Ful v)) st2) = invocations st2)
    as Hgeneral.
  { intros st2 ref' o' Hp Hj Hget.
    assert (InFlight st2 (next (promises st)) (S (next (promises st))) q d
              (CreateImageThen canvasId imgFormat (next (promises st)))) as Hfl2
      by (eapply InFlight_ext; [..|exact Hfl]; done).
    rewrite (in_flight_createImage_fulfilled _ _ _ _ _ _ _ v _ _ _ Hfl2 Hfuel Hv Hget).
    destruct Hfl2 as [Ho Hp' Hq Hd (Hop & Hoq & Hod & Hpq & Hpd & Hqd) Hj'].
    split; [|reflexivity].
    unfold state_of_promise. sproj.
    rewrite deref_store_ne by lia. by rewrite deref_store_eq. }
  split; [exact Hgeneral|].
  intros c2 Hid.
  destruct (constructor_frame c2 st1) as (Hp & Hj & Hi & _ & Hb & _).
  assert (step toDataURL fuel (Construct c2) st1 = task (Construct c2) st1) as ->.
  { apply drain_quiet. cbn [task]. rewrite Hj.
    apply (InFlight_quiet _ _ _ _ _ _ Hfl). }
  assert (_getCanvasInstanceById canvasId (task (Construct c2) st1)
          = Some (AnInstance (next (instances st1))
                    {| canvas := c2; canvasReqHandlers := ∅ |}))
    as Hget.
  { cbn [task]. rewrite <- Hid. apply getCanvasInstanceById_constructor. }
  split; [exact Hget|].
  destruct (Hgeneral (task (Construct c2) st1) _ _ Hp Hj Hget) as [-> ->].
  cbn [task canvas]. by rewrite Hb, Hi.
Qed.

(** *** Dispatches and the lookup *)








(** C2: the call of [_setImage] invokes no handler and returns a pending
    promise; the handler of the instance registered for the canvas id is
    invoked, with the image as third argument, by the load event of the
    image. An error event of the image invokes nothing and leaves every
    promise as it was; the dispatch promise is pending then and stays
    pending whatever happens in the page afterwards (provided nothing in the
    starting state referred to the promise about to be created). *)
Theorem C2_handler_runs_on_load_only st canvasId functionName base64 args fuel :
  jobs st = [] ->
  let (outer, st1) := _setImage canvasId functionName base64 args st in
  let image := next (images st) in
  (invocations st1 = invocations st /\ state_of_promise st1 outer = Some Pending /\
   drain toDataURL fuel st1 = st1) /\
  (let st2 := step toDataURL fuel (ImageError image) st1 in
   invocations st2 = invocations st /\ state_of_promise st2 outer = Some Pending /\
   promises st2 = promises st1 /\ jobs st2 = [] /\
   (Unheld outer st -> forall evs, Forall (spares outer) evs ->
      state_of_promise (run toDataURL fuel evs st2) outer = Some Pending)) /\
  (forall ref o h, Routes st canvasId functionName ref o h ->
     invocations (step toDataURL fuel (ImageLoaded image) st1)
     = invocations st ++
         [invocation ref o functionName (VNative (NImageElement image) :: args)]).
Proof.
  intros Hquiet.
  pose proof (setImage_handled_sealed st canvasId functionName base64 args) as Hsealed.
  rewrite setImage_eq in Hsealed |- *. cbn [snd] in Hsealed. cbv zeta.
  split; [|split].
  - split; [reflexivity|]. split; [|by apply drain_quiet].
    unfold state_of_promise. sproj. by rewrite deref_alloc_eq.
  - unfold step. erewrite task_ImageError; [|sproj; apply deref_alloc_eq|reflexivity].
    rewrite drain_quiet by (unfold loaded; sproj; exact Hquiet).
    split; [reflexivity|]. split; [|split; [reflexivity|split; [exact Hquiet|]]].
    + unfold state_of_promise, loaded. sproj. by rewrite deref_alloc_eq.
    + intros Hun evs Hevs. apply (sl_state (next (promises st)) Pending).
      apply run_sealed; [by apply Hsealed|done].
  - intros ref o h [H1 H2 H3]. unfold step. rewrite drain_invocations.
    erewrite task_ImageLoaded; [|sproj; apply deref_alloc_eq|reflexivity..].
    cbn [run_onload].
    erewrite callCanvasReqHandler_found; [|unfold loaded; sproj; eassumption..].
    by rewrite then_invocations, executor_invocations.
Qed.


End WebFacts.

(** ** The statements on the example page *)

Section Examples.
Local Open Scope list_scope.

Lemma C5_witness :
  Host.setImage rt0 {| Host.canvasId := "canvasEle" |} "paint" (VNum 42) None None []
  = (Host.PromiseReject Host.InvalidImageSource, []).
Proof.
  apply (C5_setImage_rejects_invalid_source rt0 {| Host.canvasId := "canvasEle" |}
           "paint" (VNum 42) None None []); intros; discriminate.
Defined.

Lemma C4_witness :
  Host.setImage rt0 {| Host.canvasId := "canvasEle" |} "paint" (VStr "photo.jpg") None None []
  = (Host.PromiseOfCall 0,
     [{| Host.functionName := "NSCanvasInterface._setImage";
         Host.callArgs := [VStr "canvasEle"; VStr "paint";
                           VStr "data:image/png;base64,png"] |}])
  /\ Host.format (Host._resolveImageSourceAndFormat rt0 (VStr "photo.jpg") None) = Some "jpg".
Proof.
  apply (C4_setImage_omitted_format_is_png rt0 {| Host.canvasId := "canvasEle" |}
           "paint" "photo" "jpg" None 9 []); [reflexivity | discriminate | reflexivity].
Defined.

(** With the format given as ["jpg"] the same call is sent as jpeg. *)
Example setImage_explicit_jpg :
  Host.setImage rt0 {| Host.canvasId := "canvasEle" |} "paint" (VStr "photo.jpg") None
    (Some "jpg") []
  = (Host.PromiseOfCall 0,
     [{| Host.functionName := "NSCanvasInterface._setImage";
         Host.callArgs := [VStr "canvasEle"; VStr "paint";
                           VStr "data:image/jpeg;base64,jpeg"] |}]).
Proof. reflexivity. Qed.

Lemma C6_counterexample :
  Host.settle rt0 (Host.Success (VObj [("data", VNum 0)]))
    = Fulfilled (VObj [("image", VNull); ("data", VNull)]) /\
  nullish_or (get (VObj [("data", VNum 0)]) "data") VNull = VNum 0 /\
  get (VObj [("image", VNull); ("data", VNull)]) "data"
    <> nullish_or (get (VObj [("data", VNum 0)]) "data") VNull /\
  Host.settle rt0 (Host.Success VUndefined) = Fulfilled VUndefined.
Proof. repeat split. discriminate. Qed.

Lemma C6_witness :
  Host.settle rt0 (Host.Success (VObj [("data", VStr "done")]))
    = Fulfilled (VObj [("image", VNull); ("data", VStr "done")]).
Proof.
  destruct (C6_response_data_or_null rt0 (VObj [("data", VStr "done")]) VNull)
    as (_ & H & _ & _).
  apply H; reflexivity.
Defined.

Lemma C7_counterexample :
  after_first "," "data:image/png;base64,QUJD,REVG" = Some "QUJD,REVG" /\
  Host.payload "data:image/png;base64,QUJD,REVG" = VStr "QUJD" /\
  Host.payload "data:image/png;base64,QUJD,REVG" <> VStr "QUJD,REVG".
Proof. repeat split. discriminate. Qed.

Lemma C7_witness : Host.payload "data:image/png;base64,QUJD" = VStr "QUJD".
Proof.
  destruct (C7_decode_takes_second_piece rt0 "data:image/png;base64,QUJD") as (_ & _ & H).
  apply (H "data:image/png;base64" "QUJD" ""); [reflexivity | reflexivity | by left].
Defined.

Lemma later_async : Async later.
Proof.
  intros args st. eexists _, _. split; [reflexivity|]. sproj.
  split; [apply deref_alloc_eq|]. rewrite next_alloc. lia.
Qed.

Lemma page_routes_later : Routes page "canvasEle" "later" 0 interfaceA later.
Proof. split; reflexivity. Qed.

Lemma page_routes_zero : Routes page "canvasEle" "zero" 0 interfaceA zero.
Proof. split; reflexivity. Qed.

Lemma page_unheld x : Unheld x page.
Proof.
  assert (promises page = empty_heap) as Hp by reflexivity.
  assert (images page = empty_heap) as Hi by reflexivity.
  split.
  - intros p c H. rewrite Hp in H. unfold deref, empty_heap in H. simpl in H.
    by rewrite lookup_empty in H.
  - constructor.
  - intros i c h H. rewrite Hi in H. unfold deref, empty_heap in H. simpl in H.
    by rewrite lookup_empty in H.
Qed.

Lemma C1_witness :
  (let (outer, st1) := _createImage "canvasEle" "later" "png" [] page in
   exists p q d,
     InFlight st1 outer p q d (CreateImageThen "canvasEle" "png" outer) /\
     let st2 := step toDataURL0 2 (Settle q (Rej (VStr "boom"))) st1 in
     state_of_promise st2 p = Some (Rejected (VStr "boom")) /\
     state_of_promise st2 outer = Some Pending /\
     unhandled_rejection st2 d (VStr "boom") /\ jobs st2 = [] /\
     (forall evs, Forall (spares outer) evs ->
        state_of_promise (run toDataURL0 2 evs st2) outer = Some Pending)) /\
  (let (outer, st1) := _setImage "canvasEle" "later" "data:image/png;base64,QUJD" [] page in
   let st1' := step toDataURL0 2 (ImageLoaded (next (images page))) st1 in
   exists p q d,
     InFlight st1' outer p q d (SetImageThen outer) /\
     let st2 := step toDataURL0 2 (Settle q (Rej (VStr "boom"))) st1' in
     state_of_promise st2 p = Some (Rejected (VStr "boom")) /\
     state_of_promise st2 outer = Some Pending /\
     unhandled_rejection st2 d (VStr "boom") /\ jobs st2 = [] /\
     (forall evs, Forall (spares outer) evs ->
        state_of_promise (run toDataURL0 2 evs st2) outer = Some Pending)).
Proof.
  destruct (C1_rejection_of_handler_promise_is_lost toDataURL0 page "canvasEle" "later"
              "png" "data:image/png;base64,QUJD" [] 0 interfaceA later (VStr "boom") 2)
    as [Hcreate Hset];
    [apply page_routes_later | apply later_async | reflexivity | lia |].
  split.
  - destruct (_createImage "canvasEle" "later" "png" [] page) as [outer st1].
    destruct Hcreate as (p & q & d & Hfl & Hp & Ho & Hd & Hj & Hever).
    exists p, q, d. split; [exact Hfl|]. cbv zeta. do 4 (split; [done|]).
    intros evs Hevs. apply Hever; [apply page_unheld|exact Hevs].
  - destruct (_setImage "canvasEle" "later" "data:image/png;base64,QUJD" [] page)
      as [outer st1].
    destruct Hset as (p & q & d & Hfl & Hp & Ho & Hd & Hj & Hever).
    exists p, q, d. split; [exact Hfl|]. cbv zeta. do 4 (split; [done|]).
    intros evs Hevs. apply Hever; [apply page_unheld|exact Hevs].
Defined.

Example boom_is_lost :
  let st := run toDataURL0 2
              [CallSetImage "canvasEle" "later" "data:image/png;base64,QUJD" [];
               ImageLoaded 0;
               Settle 2 (Rej (VStr "boom"))] page in
  state_of_promise st 0 = Some Pending /\
  state_of_promise st 1 = Some (Rejected (VStr "boom")) /\
  state_of_promise st 3 = Some (Rejected (VStr "boom")) /\
  jobs st = [].
Proof. vm_compute. repeat split. Qed.

(** When the promise of the handler is fulfilled, so is the dispatch
    promise, with the same value. *)
Example setImage_fulfilled :
  let st := run toDataURL0 2
              [CallSetImage "canvasEle" "later" "data:image/png;base64,QUJD" [];
               ImageLoaded 0;
               Settle 2 (Ful (VStr "ok"))] page in
  state_of_promise st 0 = Some (Fulfilled (VStr "ok")) /\ jobs st = [].
Proof. vm_compute. repeat split. Qed.

(** An exception thrown by the handler itself is raised inside the
    executor: it rejects the promise of the executor and is lost in the
    same way. *)
Example handler_exception_is_lost :
  let st := run toDataURL0 2 [CallCreateImage "canvasEle" "broken" "png" []] page in
  state_of_promise st 0 = Some Pending /\
  state_of_promise st 1 = Some (Rejected (VStr "oops")) /\
  state_of_promise st 2 = Some (Rejected (VStr "oops")) /\
  jobs st = [].
Proof. vm_compute. repeat split. Qed.

Lemma C2_witness :
  let (outer, st1) := _setImage "canvasEle" "zero" "data:image/png;base64,QUJD" [] page in
  let image := next (images page) in
  (invocations st1 = invocations page /\ state_of_promise st1 outer = Some Pending /\
   drain toDataURL0 2 st1 = st1) /\
  (let st2 := step toDataURL0 2 (ImageError image) st1 in
   invocations st2 = invocations page /\ state_of_promise st2 outer = Some Pending /\
   promises st2 = promises st1 /\ jobs st2 = [] /\
   (forall evs, Forall (spares outer) evs ->
      state_of_promise (run toDataURL0 2 evs st2) outer = Some Pending)) /\
  invocations (step toDataURL0 2 (ImageLoaded image) st1)
  = invocations page ++ [invocation 0 interfaceA "zero" [VNative (NImageElement image)]].
Proof.
  pose proof (C2_handler_runs_on_load_only toDataURL0 page "canvasEle" "zero"
                "data:image/png;base64,QUJD" [] 2 eq_refl) as H.
  destruct (_setImage "canvasEle" "zero" "data:image/png;base64,QUJD" [] page)
    as [outer st1].
  destruct H as (Hcall & (Hi & Hs & Hp & Hj & Hever) & Hload).
  split; [exact Hcall|]. split.
  - cbv zeta. do 4 (split; [done|]).
    intros evs Hevs. apply Hever; [apply page_unheld|exact Hevs].
  - apply (Hload 0 interfaceA zero). apply page_routes_zero.
Defined.

Lemma C2_counterexample :
  let st := run toDataURL0 2
              [CallSetImage "canvasEle" "zero" "data:image/png;base64,@" [];
               ImageError 0] page in
  state_of_promise st 0 = Some Pending /\ jobs st = [] /\ invocations st = [] /\
  (forall e, state_of_promise st 0 <> Some (Rejected e)).
Proof. vm_compute. repeat split. discriminate. Qed.



Example unregistered_handler_rejects :
  let st := run toDataURL0 2 [CallCreateImage "canvasEle" "blur" "png" []] page in
  state_of_promise st 0 = Some (Rejected (HandlerNotRegistered "blur" "canvasEle")) /\
  invocations st = [].
Proof. vm_compute. repeat split. Qed.

Lemma C10_witness :
  let (outer, st1) := _createImage "canvasEle" "later" "png" [] page in
  exists p q d,
    InFlight st1 outer p q d (CreateImageThen "canvasEle" "png" outer) /\
    invocations st1 = invocations page ++ [invocation 0 interfaceA "later" []] /\
    let st2 := step toDataURL0 2 (Construct canvasB) st1 in
    let st3 := step toDataURL0 2 (Settle q (Ful (VStr "done"))) st2 in
    _getCanvasInstanceById "canvasEle" st2
      = Some (AnInstance (next (instances st1))
                {| canvas := canvasB; canvasReqHandlers := ∅ |}) /\
    state_of_promise st3 outer
      = Some (Fulfilled
                (VObj [("_strImage",
                        VStr (toDataURL0 (bitmap st1 (el canvasB)) "image/png"));
                       ("data", VStr "done")])) /\
    invocations st3 = invocations st1.
Proof.
  pose proof (C10_image_read_from_instance_registered_at_settlement toDataURL0 page
                "canvasEle" "later" "png" [] 0 interfaceA later (VStr "done") 2
                page_routes_later later_async eq_refl eq_refl) as H.
  destruct (_createImage "canvasEle" "later" "png" [] page) as [outer st1].
  destruct H as (p & q & d & Hfl & Hinv & _ & Hnew); [lia|].
  exists p, q, d. split; [exact Hfl|]. split; [exact Hinv|].
  apply (Hnew canvasB). reflexivity.
Defined.

(** The handler drew on canvas 0; the image sent back is the (blank)
    bitmap of canvas 1. *)
Example image_of_the_newer_canvas :
  let st := run toDataURL0 2
              [CallCreateImage "canvasEle" "later" "png" [];
               Construct canvasB;
               Settle 2 (Ful (VStr "done"))] page in
  state_of_promise st 0
    = Some (Fulfilled (VObj [("_strImage", VStr "data:image/png;base64,");
                             ("data", VStr "done")])) /\
  toDataURL0 (bitmap st 0) "image/png" = "data:image/png;base64,QUFB".
Proof. vm_compute. repeat split. Qed.


(** The handler registered with the first interface is out of reach once a
    second interface exists for the same canvas id. *)
Example second_interface_hides_first :
  let st := run toDataURL0 2
              [Construct canvasB; CallCreateImage "canvasEle" "zero" "png" []] page in
  _getCanvasInstanceById "canvasEle" st
    = Some (AnInstance 1 {| canvas := canvasB; canvasReqHandlers := ∅ |}) /\
  state_of_promise st 0 = Some (Rejected (HandlerNotRegistered "zero" "canvasEle")) /\
  invocations st = [].
Proof. vm_compute. repeat split. Qed.

End Examples.

(** * Further properties of the code *)

(** ** The host side *)

Section HostEncoding.
Local Open Scope string_scope.
Variable rt : Host.ImageSourceModule.

Lemma encode_shape src fmt :
  Host._getBase64StrFromImageSource rt src fmt
  = ("data:image/" ++ encoder fmt ++ ";base64")
      ++ String "," (Host.toBase64String rt src (encoder fmt)).
Proof.
  unfold Host._getBase64StrFromImageSource, encoder.
  destruct fmt as [f|]; [|reflexivity].
  destruct (String.eqb f "jpeg" || String.eqb f "jpg"); reflexivity.
Qed.

Lemma encoder_cases fmt : encoder fmt = "jpeg" \/ encoder fmt = "png".
Proof.
  unfold encoder. destruct fmt as [f|]; [|by right].
  destruct (String.eqb f "jpeg" || String.eqb f "jpg"); [by left|by right].
Qed.

Lemma extension_without_dot path :
  occurs "." path = false ->
  Js.substring path (Js.lastIndexOf path "." + 1) (Js.length path) = path.
Proof.
  intros H. unfold Js.lastIndexOf. rewrite lastIndexOf_from_absent by done.
  unfold Js.substring, Js.length. simpl Z.add.
  replace (Z.min _ _) with 0%Z by lia.
  replace (Z.max (Z.max 0 _) (Z.max 0 _)) with (Z.of_nat (String.length path)) by lia.
  rewrite Z.sub_0_r, Nat2Z.id. by apply substring_all.
Qed.

Lemma truthy_nonempty (s : string) : s <> "" -> truthy (VStr s) = true.
Proof. destruct s; [done|reflexivity]. Qed.

(** X1: decoding what [_getBase64StrFromImageSource] produced hands
    [fromBase64] exactly the text [toBase64String] returned, provided that
    text holds no comma (base64 text never does). *)
Theorem X1_encode_then_decode src fmt :
  occurs "," (Host.toBase64String rt src (encoder fmt)) = false ->
  Host._getImageSourceFromBase64Str rt
    (VStr (Host._getBase64StrFromImageSource rt src fmt))
  = Host.fromBase64 rt (VStr (Host.toBase64String rt src (encoder fmt))).
Proof.
  intros Hb. cbn [Host._getImageSourceFromBase64Str]. f_equal.
  rewrite encode_shape. unfold Host.payload.
  rewrite split_first, split_absent; [reflexivity|exact Hb|].
  destruct (encoder_cases fmt) as [-> | ->]; reflexivity.
Qed.

(** X2: given an ImageSource, or an Image view that has one, [setImage]
    hands the transport one call of [NSCanvasInterface._setImage] whose
    arguments are the canvas id, the function name, the data URI of the
    source in the requested format (png when none is given), and then the
    extra arguments one by one. *)
Theorem X2_setImage_sends_image_source self fn image h args fmt (t : Host.Transport) :
  image = VNative (NImageSource h) \/ image = VNative (NImageView (Some h)) ->
  Host.setImage rt self fn image args fmt t =
    (Host.PromiseOfCall (List.length t),
     (t ++ [{| Host.functionName := "NSCanvasInterface._setImage";
               Host.callArgs :=
                 [VStr (Host.canvasId self); VStr fn;
                  VStr (("data:image/" ++ encoder fmt ++ ";base64")
                          ++ String "," (Host.toBase64String rt h (encoder fmt)))]
                   ++ match args with Some a => a | None => [] end |}])%list).
Proof.
  intros [-> | ->]; unfold Host.setImage; cbn [Host._resolveImageSourceAndFormat
    Host.imageSource Host.format]; rewrite encode_shape;
    destruct fmt as [f|]; reflexivity.
Qed.

(** X3: for a path whose file loads, a format that is not the empty
    string decides the encoding alone; the extension of the path is not
    looked at. *)
Theorem X3_setImage_explicit_format_wins self fn path f args src (t : Host.Transport) :
  Js.trim path <> "" -> f <> "" ->
  Host.fromFile rt path = Some src ->
  Host.setImage rt self fn (VStr path) args (Some f) t =
    (Host.PromiseOfCall (List.length t),
     (t ++ [{| Host.functionName := "NSCanvasInterface._setImage";
               Host.callArgs :=
                 [VStr (Host.canvasId self); VStr fn;
                  VStr (Host._getBase64StrFromImageSource rt src (Some f))]
                   ++ match args with Some a => a | None => [] end |}])%list).
Proof.
  intros Hne Hf Hfile. unfold Host.setImage. rewrite resolve_path by done.
  cbn [Host.imageSource Host.format]. rewrite Hfile.
  apply String.eqb_neq in Hf. rewrite Hf. reflexivity.
Qed.

(** X4: with the empty string as format, [setImage] encodes a path
    [pre.ext] by its extension [ext], and a path without a dot by the whole
    path taken as the format. *)
Theorem X4_setImage_empty_format_infers_extension self fn path ext args src (t : Host.Transport) :
  Js.trim path <> "" ->
  Host.fromFile rt path = Some src ->
  (exists pre, path = pre ++ String "." ext /\ occurs "." ext = false) \/
  (occurs "." path = false /\ ext = path) ->
  Host.setImage rt self fn (VStr path) args (Some "") t =
    (Host.PromiseOfCall (List.length t),
     (t ++ [{| Host.functionName := "NSCanvasInterface._setImage";
               Host.callArgs :=
                 [VStr (Host.canvasId self); VStr fn;
                  VStr (Host._getBase64StrFromImageSource rt src (Some ext))]
                   ++ match args with Some a => a | None => [] end |}])%list).
Proof.
  intros Hne Hfile Hext. unfold Host.setImage. rewrite resolve_path by done.
  cbn [Host.imageSource Host.format]. rewrite Hfile.
  assert (Js.substring path (Js.lastIndexOf path "." + 1) (Js.length path) = ext) as Hx.
  { destruct Hext as [(pre & -> & Hdot) | [Hdot ->]].
    - by apply extension_after_last_dot.
    - by apply extension_without_dot. }
  cbn [String.eqb]. rewrite Hx. reflexivity.
Qed.

(** X5: an Image view that has no image source, and a path whose file
    [fromFile] cannot load, make [setImage] return the rejected promise
    and hand the transport nothing. *)
Theorem X5_setImage_rejects_unloadable self fn image args fmt (t : Host.Transport) :
  image = VNative (NImageView None) \/
  (exists path, image = VStr path /\ Host.fromFile rt path = None) ->
  Host.setImage rt self fn image args fmt t
  = (Host.PromiseReject Host.InvalidImageSource, t).
Proof.
  intros [-> | (path & -> & Hfile)]; [reflexivity|].
  unfold Host.setImage, Host._resolveImageSourceAndFormat.
  destruct (truthy (VStr path) && (0 <? Js.length (Js.trim path))%Z);
    cbn [Host.imageSource]; [by rewrite Hfile|reflexivity].
Qed.

(** X6: a response whose [_strImage] is a data URI [pre,b] settles the
    promise of [_callJSFunction] with the image [fromBase64] makes of [b]
    and with [response.data || null]. *)
Theorem X6_response_image_decoded r pre b img :
  truthy r = true ->
  get r "_strImage" = VStr (pre ++ String "," b) ->
  occurs "," pre = false -> occurs "," b = false ->
  Host.fromBase64 rt (VStr b) = Normal img ->
  Host.settle rt (Host.Success r)
  = Fulfilled (VObj [("image", img); ("data", js_or (get r "data") VNull)]).
Proof.
  intros Hr Hs Hpre Hb Himg. unfold Host.settle, Host.onSuccess.
  rewrite Hr, Hs, truthy_nonempty by by destruct pre.
  cbn [Host._getImageSourceFromBase64Str]. unfold Host.payload.
  rewrite split_first, split_absent by done. cbn [lookup list_lookup].
  by rewrite Himg.
Qed.

(** X7: when decoding the image of a response fails inside the success
    callback (because [fromBase64] throws, or because [_strImage] is truthy
    but has no [split] method), [resolve] is never reached and the promise
    of [_callJSFunction] stays pending. *)
Theorem X7_response_decode_failure_leaves_pending r :
  truthy r = true ->
  (exists s e, get r "_strImage" = VStr s /\ s <> "" /\
               Host.fromBase64 rt (Host.payload s) = Throw e) \/
  (truthy (get r "_strImage") = true /\ forall s, get r "_strImage" <> VStr s) ->
  Host.settle rt (Host.Success r) = Pending.
Proof.
  intros Hr H. unfold Host.settle, Host.onSuccess. rewrite Hr.
  destruct H as [(s & e & Hs & Hne & Hthrow) | [Ht Hnot]].
  - rewrite Hs, truthy_nonempty by done.
    cbn [Host._getImageSourceFromBase64Str]. by rewrite Hthrow.
  - rewrite Ht. destruct (get r "_strImage") as [| | | | |s| | |]; try reflexivity.
    by destruct (Hnot s).
Qed.

End HostEncoding.

(** ** The web-view side *)

Section Dispatches.
Local Open Scope list_scope.
Variable toDataURL : Pixels -> string -> string.

Lemma normalised_value r : as_thenable r = None -> as_thenable (normalised r) = None.
Proof. intros H. unfold normalised. by destruct (truthy r). Qed.

(** [_callCanvasReqHandler] followed by [then] on its result, when the
    handler returns a value [r] that is not a promise: after at most one
    microtask the callback is queued with the normalised value. *)
Lemma call_then_ready st canvasId functionName args ref o h r st2 outer cb fuel :
  Routes st canvasId functionName ref o h ->
  jobs st = [] ->
  deref (promises st) outer = Some open_cell -> outer < next (promises st) ->
  run_body (h (actuals o args)) (entered ref o functionName args st) = (Normal r, st2) ->
  as_thenable r = None -> 2 <= fuel ->
  exists st3 d st4 stR fuel',
    _callCanvasReqHandler canvasId functionName args st = (Normal (next (promises st)), st3) /\
    then_ (next (promises st)) cb st3 = (d, st4) /\
    1 <= fuel' /\
    drain toDataURL fuel st4 = drain toDataURL fuel' stR /\
    Ready stR outer d cb (normalised r) /\
    invocations stR = invocations (entered ref o functionName args st) /\
    _canvasInterfaceInstanceMap stR = _canvasInterfaceInstanceMap st2 /\
    table_prototype stR = table_prototype st2 /\
    instances stR = instances st2 /\ bitmap stR = bitmap st2 /\ images stR = images st.
Proof.
  intros [H1 H2 H3] Hquiet Houter Hlt Hrun Hr Hfuel.
  rewrite (callCanvasReqHandler_found _ _ _ _ _ _ _ H1 H2 H3).
  pose proof (entered_body _ _ _ _ _ _ _ _ Hrun) as (Hp & Hj & Hi & Him & Hn & Hd).
  assert (forall x, wrap_retnValue r = Promise_resolve x -> normalised r = x ->
    exists st3 d st4 stR fuel',
      (Normal (fst (executor ref o functionName h args st)),
       snd (executor ref o functionName h args st)) = (Normal (next (promises st)), st3) /\
      then_ (next (promises st)) cb st3 = (d, st4) /\
      1 <= fuel' /\
      drain toDataURL fuel st4 = drain toDataURL fuel' stR /\
      Ready stR outer d cb (normalised r) /\
      invocations stR = invocations (entered ref o functionName args st) /\
      _canvasInterfaceInstanceMap stR = _canvasInterfaceInstanceMap st2 /\
      table_prototype stR = table_prototype st2 /\
      instances stR = instances st2 /\ bitmap stR = bitmap st2 /\ images stR = images st)
    as Hwrapped.
  { intros x Hwrap ->.
    rewrite (executor_wrapped _ _ _ _ _ _ _ _ _ Hrun Hwrap). cbn [fst snd].
    rewrite Hquiet. sproj. destruct fuel as [|fuel]; [lia|].
    eexists _, _, _, _, fuel. split; [reflexivity|].
    unfold then_, new_promise, bind, modify, ret. sproj. heap_simpl.
    erewrite subscribe_pending;
      [|sproj; rewrite deref_alloc_ne by (heap_simpl; lia); apply deref_store_eq|reflexivity].
    sproj. split; [reflexivity|].
    split; [lia|]. split.
    { erewrite drain_step by reflexivity. cbn [run_job].
      erewrite settle_pending; [|sproj; apply deref_store_eq|reflexivity].
      sproj. heap_simpl. reflexivity. }
    split; [|by sproj].
    split; sproj.
    - reflexivity.
    - rewrite deref_store_ne by lia. rewrite deref_alloc_ne by (heap_simpl; lia).
      rewrite deref_store_ne by lia. rewrite deref_alloc_ne by lia.
      rewrite Hd by lia. exact Houter.
    - rewrite deref_store_ne by lia. by apply deref_alloc_at.
    - lia. }
  destruct (truthy r) eqn:Ht; [destruct (truthy (get r "then")) eqn:Hthen|].
  - rewrite (executor_object _ _ _ _ _ _ _ _ Hrun Ht Hthen Hr). cbn [fst snd].
    rewrite Hquiet. sproj.
    eexists _, _, _, _, fuel. split; [reflexivity|].
    unfold then_, new_promise, bind, modify, ret. sproj. heap_simpl.
    erewrite subscribe_fulfilled;
      [|sproj; rewrite deref_alloc_ne by (heap_simpl; lia); apply deref_store_eq|reflexivity].
    sproj. split; [reflexivity|].
    split; [lia|]. split; [reflexivity|].
    split; [|by sproj].
    unfold normalised. rewrite Ht.
    split; sproj.
    + reflexivity.
    + rewrite deref_alloc_ne by (heap_simpl; lia). rewrite deref_store_ne by lia.
      rewrite Hd by lia. exact Houter.
    + by apply deref_alloc_at.
    + lia.
  - apply (Hwrapped r); [by apply wrap_plain|]. unfold normalised. by rewrite Ht.
  - apply (Hwrapped VUndefined); [by apply wrap_falsy|]. unfold normalised. by rewrite Ht.
Qed.

Lemma ready_createImage st outer d canvasId imgFormat x ref o fuel :
  Ready st outer d (CreateImageThen canvasId imgFormat outer) x -> 1 <= fuel ->
  as_thenable x = None ->
  _getCanvasInstanceById canvasId st = Some (AnInstance ref o) ->
  drain toDataURL fuel st =
    set_jobs []
      (set_promises
         (store d (settled_cell (Fulfilled VUndefined))
            (store outer
               (settled_cell
                  (Fulfilled
                     (VObj [("_strImage",
                             VStr (toDataURL (bitmap st (el (canvas o)))
                                     (if String.eqb imgFormat "png"
                                      then "image/png" else "image/jpeg")));
                            ("data", x)])))
               (promises st))) st).
Proof.
  intros [Hj Ho Hd Hod] Hfuel Hx Hget.
  destruct fuel as [|fuel]; [lia|].
  erewrite drain_step by exact Hj. cbn [run_job run_callback].
  rewrite (getCanvasInstanceById_ext st) by reflexivity. rewrite Hget.
  erewrite (resolve_fn_value _ outer); [|sproj; exact Ho|reflexivity..].
  sproj.
  erewrite resolve_fn_value;
    [|sproj; rewrite deref_store_ne by lia; exact Hd|reflexivity..].
  sproj. by apply drain_quiet.
Qed.

Lemma ready_setImage st outer d x fuel :
  Ready st outer d (SetImageThen outer) x -> 1 <= fuel ->
  as_thenable x = None ->
  drain toDataURL fuel st =
    set_jobs []
      (set_promises
         (store d (settled_cell (Fulfilled VUndefined))
            (store outer (settled_cell (Fulfilled x)) (promises st))) st).
Proof.
  intros [Hj Ho Hd Hod] Hfuel Hx.
  destruct fuel as [|fuel]; [lia|].
  erewrite drain_step by exact Hj. cbn [run_job run_callback].
  erewrite (resolve_fn_value _ outer); [|sproj; exact Ho|reflexivity..|exact Hx].
  sproj.
  erewrite resolve_fn_value;
    [|sproj; rewrite deref_store_ne by lia; exact Hd|reflexivity..].
  sproj. by apply drain_quiet.
Qed.

(** X8: when the handler of a [_createImage] dispatch returns a value [r]
    that is not a promise, the dispatch promise is fulfilled, once the
    microtasks have run, with the [toDataURL] of the canvas as the handler
    left it (png for the format [png], jpeg for every other one) and with
    the normalised [r] as data; the handler has been called once. *)
Theorem X8_createImage_plain_value
    st canvasId functionName imgFormat args ref o h r st2 ref' o' fuel :
  Routes st canvasId functionName ref o h -> jobs st = [] ->
  run_body (h (actuals o args))
    (entered ref o functionName args (snd (new_promise Pending st))) = (Normal r, st2) ->
  as_thenable r = None ->
  _getCanvasInstanceById canvasId st2 = Some (AnInstance ref' o') ->
  2 <= fuel ->
  let (outer, st1) := _createImage canvasId functionName imgFormat args st in
  let mime := if String.eqb imgFormat "png" then "image/png" else "image/jpeg" in
  state_of_promise (drain toDataURL fuel st1) outer
    = Some (Fulfilled
              (VObj [("_strImage", VStr (toDataURL (bitmap st2 (el (canvas o'))) mime));
                     ("data", normalised r)])) /\
  jobs (drain toDataURL fuel st1) = [] /\
  invocations (drain toDataURL fuel st1)
    = invocations st ++ [invocation ref o functionName args].
Proof.
  intros Hroute Hquiet Hrun Hr Hget Hfuel.
  change (snd (new_promise Pending st))
    with (set_promises (alloc open_cell (promises st)) st) in Hrun.
  set (st0 := set_promises (alloc open_cell (promises st)) st) in *.
  destruct (call_then_ready st0 canvasId functionName args ref o h r st2
              (next (promises st))
              (CreateImageThen canvasId imgFormat (next (promises st))) fuel)
    as (st3 & d & st4 & stR & fuel' & Hcall & Hthen & Hfuel' & Hdrain & Hready
        & Hinv & Hmap & Hproto & Hinst & Hbm & _);
    [by eapply Routes_ext; [..|exact Hroute]|done|apply deref_alloc_eq
    |unfold st0; sproj; heap_simpl; lia|done..|].
  unfold _createImage, new_promise, bind at 1 2. fold st0.
  rewrite Hcall. unfold bind, modify, ret. rewrite Hthen. cbv zeta. rewrite Hdrain.
  assert (_getCanvasInstanceById canvasId stR = Some (AnInstance ref' o')) as Hget'
    by by rewrite (getCanvasInstanceById_ext st2).
  rewrite (ready_createImage _ _ _ _ _ _ _ _ _ Hready Hfuel' (normalised_value _ Hr) Hget').
  unfold state_of_promise. sproj. split; [|split; [reflexivity|]].
  - destruct Hready as [_ _ _ Hod].
    rewrite deref_store_ne by lia. rewrite deref_store_eq. by rewrite Hbm.
  - by rewrite Hinv.
Qed.

(** X9: when the handler of a [_setImage] dispatch returns a value [r]
    that is not a promise, the dispatch promise is fulfilled, in the task
    of the load event, with the normalised [r] itself. *)
Theorem X9_setImage_plain_value st canvasId functionName base64 args ref o h r fuel :
  Routes st canvasId functionName ref o h -> jobs st = [] ->
  (forall st0,
     fst (run_body (h (actuals o (VNative (NImageElement (next (images st))) :: args))) st0)
     = Normal r) ->
  as_thenable r = None -> 2 <= fuel ->
  let (outer, st1) := _setImage canvasId functionName base64 args st in
  let st2 := step toDataURL fuel (ImageLoaded (next (images st))) st1 in
  state_of_promise st2 outer = Some (Fulfilled (normalised r)) /\
  jobs st2 = [] /\
  invocations st2
    = invocations st ++
        [invocation ref o functionName (VNative (NImageElement (next (images st))) :: args)].
Proof.
  intros Hroute Hquiet Hret Hr Hfuel. rewrite setImage_eq. cbv zeta. unfold step.
  erewrite task_ImageLoaded; [|sproj; apply deref_alloc_eq|reflexivity..].
  cbn [run_onload].
  set (image := next (images st)) in *.
  set (st0 := loaded image _ _).
  destruct (run_body (h (actuals o (VNative (NImageElement image) :: args)))
              (entered ref o functionName (VNative (NImageElement image) :: args) st0))
    as [c st2] eqn:Hrun.
  pose proof (Hret (entered ref o functionName (VNative (NImageElement image) :: args) st0))
    as Hc. rewrite Hrun in Hc. cbn [fst] in Hc. subst c.
  destruct (call_then_ready st0 canvasId functionName
              (VNative (NImageElement image) :: args) ref o h r st2
              (next (promises st)) (SetImageThen (next (promises st))) fuel)
    as (st3 & d & st4 & stR & fuel' & Hcall & Hthen & Hfuel' & Hdrain & Hready
        & Hinv & _);
    [by eapply Routes_ext; [..|exact Hroute]|done|apply deref_alloc_eq
    |unfold st0, loaded; sproj; heap_simpl; lia|done..|].
  change ([VNative (NImageElement image)] ++ args)
    with (VNative (NImageElement image) :: args).
  rewrite Hcall, Hthen. cbn [snd]. rewrite Hdrain.
  rewrite (ready_setImage _ _ _ _ _ Hready Hfuel' (normalised_value _ Hr)).
  unfold state_of_promise. sproj. split; [|split; [reflexivity|]].
  - destruct Hready as [_ _ _ Hod].
    rewrite deref_store_ne by lia. by rewrite deref_store_eq.
  - by rewrite Hinv.
Qed.

(** X10: when the handler of a [_setImage] dispatch returns a promise of
    its own that is later fulfilled with [v], the dispatch promise is
    fulfilled with [v] itself, not with an object that has [v] as [data]. *)
Theorem X10_setImage_promise_fulfilled
    st canvasId functionName base64 args ref o h v fuel :
  Routes st canvasId functionName ref o h -> Async h -> jobs st = [] ->
  as_thenable v = None -> 2 <= fuel ->
  let (outer, st1) := _setImage canvasId functionName base64 args st in
  let st1' := step toDataURL fuel (ImageLoaded (next (images st))) st1 in
  exists p q d,
    InFlight st1' outer p q d (SetImageThen outer) /\
    state_of_promise st1' outer = Some Pending /\
    let st2 := step toDataURL fuel (Settle q (Ful v)) st1' in
    state_of_promise st2 outer = Some (Fulfilled v) /\
    state_of_promise st2 p = Some (Fulfilled v) /\
    jobs st2 = [] /\ invocations st2 = invocations st1'.
Proof.
  intros Hroute Hasync Hquiet Hv Hfuel.
  destruct (setImage_loaded_in_flight st canvasId functionName base64 args ref o h)
    as (q & d & Hfl & _); [done..|].
  rewrite setImage_eq in Hfl |- *. cbn [snd] in Hfl. cbv beta iota zeta.
  set (st1 := set_images _ _) in *.
  assert (step toDataURL fuel (ImageLoaded (next (images st))) st1
          = task (ImageLoaded (next (images st))) st1) as ->
    by apply drain_quiet, (InFlight_quiet _ _ _ _ _ _ Hfl).
  exists (S (next (promises st))), q, d. split; [exact Hfl|].
  rewrite (in_flight_setImage_fulfilled _ _ _ _ _ _ _ _ Hfl Hfuel Hv).
  destruct Hfl as [Ho Hp Hq Hd (Hop & Hoq & Hod & Hpq & Hpd & Hqd) Hj].
  unfold state_of_promise. sproj. repeat split.
  - by rewrite Ho.
  - rewrite deref_store_ne by lia. by rewrite deref_store_eq.
  - rewrite !deref_store_ne by lia. by rewrite deref_store_eq.
Qed.

(** [_callCanvasReqHandler] followed by [then] on its result, when the
    handler throws [e]: the executor's promise is rejected, and so is the
    promise [then] returns, without the callback being called. *)
Lemma call_then_thrown st canvasId functionName args ref o h e st2 cb fuel :
  Routes st canvasId functionName ref o h ->
  jobs st = [] ->
  run_body (h (actuals o args)) (entered ref o functionName args st) = (Throw e, st2) ->
  1 <= fuel ->
  exists st3 st4,
    _callCanvasReqHandler canvasId functionName args st = (Normal (next (promises st)), st3) /\
    then_ (next (promises st)) cb st3 = (next (promises st2), st4) /\
    drain toDataURL fuel st4 =
      set_jobs []
        (set_promises
           (store (next (promises st2)) (settled_cell (Rejected e))
              (alloc open_cell
                 (store (next (promises st)) (settled_cell (Rejected e)) (promises st2))))
           st2).
Proof.
  intros [H1 H2 H3] Hquiet Hrun Hfuel.
  rewrite (callCanvasReqHandler_found _ _ _ _ _ _ _ H1 H2 H3).
  rewrite executor_eq. cbv zeta. rewrite Hrun. cbn [fst snd].
  pose proof (entered_body _ _ _ _ _ _ _ _ Hrun) as (Hp & Hj & Hi & Him & Hn & Hd).
  erewrite reject_fn_open; [|exact Hp|reflexivity..].
  rewrite Hj, Hquiet. sproj.
  eexists _, _. split; [reflexivity|].
  unfold then_, new_promise, bind, modify, ret. sproj. heap_simpl.
  erewrite subscribe_rejected;
    [|sproj; rewrite deref_alloc_ne by (heap_simpl; lia); apply deref_store_eq|reflexivity].
  sproj. split; [reflexivity|].
  destruct fuel as [|fuel]; [lia|].
  erewrite drain_step by reflexivity. cbn [run_job].
  erewrite reject_fn_open; [|sproj; by apply deref_alloc_at|reflexivity..].
  sproj. by apply drain_quiet.
Qed.

Lemma thrown_sealed x st ref o functionName args b c st2 e :
  Sealed x Pending st ->
  run_body b (entered ref o functionName args st) = (c, st2) ->
  Sealed x Pending
    (set_jobs []
       (set_promises
          (store (next (promises st2)) (settled_cell (Rejected e))
             (alloc open_cell
                (store (next (promises st)) (settled_cell (Rejected e)) (promises st2))))
          st2)).
Proof.
  intros Hs Hrun.
  pose proof (sl_alloc _ _ _ Hs) as Hx.
  pose proof (entered_body _ _ _ _ _ _ _ _ Hrun) as (_ & _ & _ & _ & Hn & _).
  assert (Sealed x Pending st2) as Hs2.
  { pose proof (run_body_sealed x Pending b (entered ref o functionName args st)) as H.
    rewrite Hrun in H. apply H.
    apply (Sealed_ext x Pending (set_promises (alloc open_cell (promises st)) st));
      [reflexivity..|].
    by apply Sealed_alloc. }
  apply Sealed_jobs; [|constructor].
  apply (Sealed_store x Pending
           (set_promises
              (alloc open_cell
                 (store (next (promises st)) (settled_cell (Rejected e)) (promises st2)))
              st2)); [|sproj; lia|constructor].
  apply (Sealed_alloc x Pending
           (set_promises
              (store (next (promises st)) (settled_cell (Rejected e)) (promises st2)) st2));
    [|constructor].
  apply Sealed_store; [exact Hs2|lia|constructor].
Qed.

(** X11: an exception thrown by the handler itself is caught by the
    promise of the executor, so [_callCanvasReqHandler] returns normally and
    the [catch] of [_createImage] and of [onload] never sees it: the
    promise returned by [then] is rejected with nothing attached, and the
    dispatch promise is pending when the queue is empty and stays so. *)
Theorem X11_handler_exception_is_lost
    st canvasId functionName imgFormat base64 args ref o h e fuel :
  Routes st canvasId functionName ref o h -> jobs st = [] -> 1 <= fuel ->
  (forall a st0, fst (run_body (h a) st0) = Throw e) ->
  (let (outer, st1) := _createImage canvasId functionName imgFormat args st in
   let st2 := drain toDataURL fuel st1 in
   exists p d,
     state_of_promise st2 p = Some (Rejected e) /\
     unhandled_rejection st2 d e /\
     state_of_promise st2 outer = Some Pending /\ jobs st2 = [] /\
     (Unheld outer st -> forall evs, Forall (spares outer) evs ->
        state_of_promise (run toDataURL fuel evs st2) outer = Some Pending)) /\
  (let (outer, st1) := _setImage canvasId functionName base64 args st in
   let st2 := step toDataURL fuel (ImageLoaded (next (images st))) st1 in
   exists p d,
     state_of_promise st2 p = Some (Rejected e) /\
     unhandled_rejection st2 d e /\
     state_of_promise st2 outer = Some Pending /\ jobs st2 = [] /\
     (Unheld outer st -> forall evs, Forall (spares outer) evs ->
        state_of_promise (run toDataURL fuel evs st2) outer = Some Pending)).
Proof.
  intros Hroute Hquiet Hfuel Hthrows.
  assert (forall st0 a st2,
    deref (promises st0) (next (promises st)) = Some open_cell ->
    next (promises st0) = S (next (promises st)) ->
    (Unheld (next (promises st)) st -> Sealed (next (promises st)) Pending st0) ->
    run_body (h (actuals o a)) (entered ref o functionName a st0) = (Throw e, st2) ->
    let stF := set_jobs []
        (set_promises
           (store (next (promises st2)) (settled_cell (Rejected e))
              (alloc open_cell
                 (store (next (promises st0)) (settled_cell (Rejected e)) (promises st2))))
           st2) in
    exists p d,
     state_of_promise stF p = Some (Rejected e) /\
     unhandled_rejection stF d e /\
     state_of_promise stF (next (promises st)) = Some Pending /\ jobs stF = [] /\
     (Unheld (next (promises st)) st -> forall evs, Forall (spares (next (promises st))) evs ->
        state_of_promise (run toDataURL fuel evs stF) (next (promises st)) = Some Pending))
    as Hlost.
  { intros st0 a st2 Ho Hnext Hsealed Hrun. cbv zeta.
    pose proof (entered_body _ _ _ _ _ _ _ _ Hrun) as (_ & _ & _ & _ & Hn & Hd).
    exists (next (promises st0)), (next (promises st2)).
    unfold state_of_promise, unhandled_rejection. sproj. repeat split.
    - rewrite deref_store_ne by lia. rewrite deref_alloc_ne by (heap_simpl; lia).
      by rewrite deref_store_eq.
    - eexists. split; [apply deref_store_eq|done].
    - rewrite deref_store_ne by lia. rewrite deref_alloc_ne by (heap_simpl; lia).
      rewrite deref_store_ne by lia. rewrite Hd by lia. by rewrite Ho.
    - intros Hun evs Hevs. apply (sl_state (next (promises st)) Pending).
      apply run_sealed; [|done]. eapply thrown_sealed; [by apply Hsealed|exact Hrun]. }
  split.
  - set (st0 := set_promises (alloc open_cell (promises st)) st).
    destruct (run_body (h (actuals o args)) (entered ref o functionName args st0))
      as [c st2] eqn:Hrun.
    pose proof (Hthrows (actuals o args) (entered ref o functionName args st0)) as Hc.
    rewrite Hrun in Hc. cbn [fst] in Hc. subst c.
    destruct (call_then_thrown st0 canvasId functionName args ref o h e st2
                (CreateImageThen canvasId imgFormat (next (promises st))) fuel)
      as (st3 & st4 & Hcall & Hthen & Hdrain);
      [by eapply Routes_ext; [..|exact Hroute]|done..|].
    unfold _createImage, new_promise, bind at 1 2. fold st0.
    rewrite Hcall. unfold bind, modify, ret. rewrite Hthen. cbv zeta. rewrite Hdrain.
    apply (Hlost st0 args st2); [apply deref_alloc_eq|reflexivity| |exact Hrun].
    intros Hun. by apply Unheld_fresh.
  - rewrite setImage_eq. cbv zeta. unfold step.
    erewrite task_ImageLoaded; [|sproj; apply deref_alloc_eq|reflexivity..].
    cbn [run_onload].
    set (image := next (images st)) in *.
    set (st0 := loaded image _ _).
    destruct (run_body (h (actuals o (VNative (NImageElement image) :: args)))
                (entered ref o functionName (VNative (NImageElement image) :: args) st0))
      as [c st2] eqn:Hrun.
    pose proof (Hthrows (actuals o (VNative (NImageElement image) :: args))
                  (entered ref o functionName (VNative (NImageElement image) :: args) st0))
      as Hc.
    rewrite Hrun in Hc. cbn [fst] in Hc. subst c.
    destruct (call_then_thrown st0 canvasId functionName
                (VNative (NImageElement image) :: args) ref o h e st2
                (SetImageThen (next (promises st))) fuel)
      as (st3 & st4 & Hcall & Hthen & Hdrain);
      [by eapply Routes_ext; [..|exact Hroute]|done..|].
    change ([VNative (NImageElement image)] ++ args)
      with (VNative (NImageElement image) :: args).
    rewrite Hcall, Hthen. cbn [snd]. rewrite Hdrain.
    apply (Hlost st0 (VNative (NImageElement image) :: args) st2);
      [apply deref_alloc_eq|reflexivity| |exact Hrun].
    intros Hun. by apply setImage_handled_sealed.
Qed.

Lemma task_invocations ev st :
  calls_nothing ev -> invocations (task ev st) = invocations st.
Proof.
  destruct ev as [c|inst hs| | | |image|p [v|e]]; intros Hev; try done; cbn [task].
  - by destruct (constructor_frame c st) as (_ & _ & -> & _).
  - unfold register. by case_match.
  - unfold stop_loading. repeat case_match; reflexivity.
  - apply resolve_fn_invocations.
  - apply reject_fn_invocations.
Qed.

Lemma run_invocations fuel evs st :
  Forall calls_nothing evs -> invocations (run toDataURL fuel evs st) = invocations st.
Proof.
  intros Hevs. revert st. induction Hevs as [|ev evs Hev _ IH]; intros st; [reflexivity|].
  cbn [run]. rewrite IH. unfold step. rewrite drain_invocations. by apply task_invocations.
Qed.

(** X13: whatever the handler does, [_createImage] calls it exactly once,
    before it returns, with the canvas and the context of the instance in
    front of the arguments; no microtask, and no later construction,
    assignment of handlers, error event or settling of a promise, calls a
    handler again. *)
Theorem X13_createImage_calls_handler_once
    st canvasId functionName imgFormat args ref o h fuel evs :
  Routes st canvasId functionName ref o h ->
  Forall calls_nothing evs ->
  let st1 := snd (_createImage canvasId functionName imgFormat args st) in
  invocations st1 = invocations st ++ [invocation ref o functionName args] /\
  inv_args (invocation ref o functionName args)
    = VNative (NCanvas (el (canvas o))) :: VNative (NContext2D (el (canvas o))) :: args /\
  invocations (run toDataURL fuel evs (drain toDataURL fuel st1)) = invocations st1.
Proof.
  intros [H1 H2 H3] Hevs. cbv zeta. split; [|split; [reflexivity|]].
  - unfold _createImage, new_promise, bind at 1 2.
    erewrite callCanvasReqHandler_found; [|sproj; done..].
    unfold bind, modify, ret.
    destruct (then_ _ _ _) as [d st4] eqn:Hthen. cbn [snd].
    assert (st4 = snd (then_ (fst (executor ref o functionName h args
                                     (set_promises (alloc open_cell (promises st)) st)))
                         (CreateImageThen canvasId imgFormat (next (promises st)))
                         (snd (executor ref o functionName h args
                                 (set_promises (alloc open_cell (promises st)) st)))))
      as -> by by rewrite Hthen.
    by rewrite then_invocations, executor_invocations.
  - by rewrite run_invocations, drain_invocations.
Qed.

(** X14: [_setImage] looks nothing up when it is called; the instance and
    the handler are those of the state in which the load event arrives. So
    an interface constructed, or a handler assigned, between the call and
    the load event is used, and one that has gone by then is missed. *)
Theorem X14_setImage_binds_at_load st canvasId functionName base64 args st' fuel :
  let (outer, st1) := _setImage canvasId functionName base64 args st in
  let image := next (images st) in
  deref (images st') image = deref (images st1) image ->
  (forall ref o h, Routes st' canvasId functionName ref o h ->
     invocations (step toDataURL fuel (ImageLoaded image) st')
     = invocations st' ++
         [invocation ref o functionName (VNative (NImageElement image) :: args)]) /\
  (forall err, LookupFails st' canvasId functionName err ->
     deref (promises st') outer = Some open_cell -> jobs st' = [] ->
     state_of_promise (step toDataURL fuel (ImageLoaded image) st') outer
       = Some (Rejected err) /\
     invocations (step toDataURL fuel (ImageLoaded image) st') = invocations st').
Proof.
  rewrite setImage_eq. cbv zeta. sproj. rewrite deref_alloc_eq. intros Himg.
  split.
  - intros ref o h [H1 H2 H3]. unfold step. rewrite drain_invocations.
    erewrite task_ImageLoaded; [|exact Himg|reflexivity..].
    cbn [run_onload].
    erewrite callCanvasReqHandler_found; [|unfold loaded; sproj; done..].
    by rewrite then_invocations, executor_invocations.
  - intros err Hfail Ho Hquiet. unfold step.
    erewrite task_ImageLoaded; [|exact Himg|reflexivity..].
    cbn [run_onload].
    rewrite (callCanvasReqHandler_fails _ _ _ _ err)
      by (eapply LookupFails_ext; [..|exact Hfail]; done).
    erewrite reject_fn_open; [|unfold loaded; sproj; exact Ho|reflexivity..].
    unfold loaded. sproj. rewrite Hquiet. sproj.
    rewrite drain_quiet by reflexivity.
    unfold state_of_promise. sproj. by rewrite deref_store_eq.
Qed.

(** The promises that existed before a dispatch whose handler returns a
    pending promise of its own are not touched by it. *)
Lemma call_then_frame st canvasId functionName args ref o h q st2 cb :
  Routes st canvasId functionName ref o h ->
  run_body (h (actuals o args)) (entered ref o functionName args st)
    = (Normal (VNative (NPromise q)), st2) ->
  deref (promises st2) q = Some open_cell ->
  next (promises st) < q < next (promises st2) ->
  forall st3 st4 d,
    _callCanvasReqHandler canvasId functionName args st = (Normal (next (promises st)), st3) ->
    then_ (next (promises st)) cb st3 = (d, st4) ->
    next (promises st4) = S (next (promises st2)) /\
    (forall l, l < next (promises st) -> deref (promises st4) l = deref (promises st) l).
Proof.
  intros [H1 H2 H3] Hrun Hq Hrange st3 st4 d.
  rewrite (callCanvasReqHandler_found _ _ _ _ _ _ _ H1 H2 H3).
  rewrite (executor_promise _ _ _ _ _ _ _ _ Hrun) by lia.
  pose proof (entered_body _ _ _ _ _ _ _ _ Hrun) as (Hp & Hj & Hi & Him & Hn & Hd).
  cbn [fst snd].
  erewrite subscribe_pending;
    [|sproj; rewrite deref_store_ne by lia; exact Hq|reflexivity].
  sproj. intros [= <-]. unfold then_, new_promise, bind, modify, ret. sproj. heap_simpl.
  erewrite subscribe_pending;
    [|sproj; rewrite deref_alloc_ne by (heap_simpl; lia);
      rewrite deref_store_ne by lia; apply deref_store_eq|reflexivity].
  sproj. intros [= <- <-]. sproj. heap_simpl. split; [reflexivity|].
  intros l Hl. rewrite deref_store_ne by lia. rewrite deref_alloc_ne by (heap_simpl; lia).
  rewrite !deref_store_ne by lia. by apply Hd.
Qed.

Lemma createImage_in_flight_frame st canvasId functionName imgFormat args ref o h :
  Routes st canvasId functionName ref o h -> Async h -> jobs st = [] ->
  exists q d st1,
    _createImage canvasId functionName imgFormat args st = (next (promises st), st1) /\
    InFlight st1 (next (promises st)) (S (next (promises st))) q d
      (CreateImageThen canvasId imgFormat (next (promises st))) /\
    S (next (promises st)) < q < d /\ next (promises st1) = S d /\
    (forall l, l < next (promises st) -> deref (promises st1) l = deref (promises st) l).
Proof.
  intros Hroute Hasync Hquiet.
  set (st0 := set_promises (alloc open_cell (promises st)) st).
  destruct (Hasync (actuals o args) (entered ref o functionName args st0))
    as (q & st2 & Hrun & Hq & Hrange).
  unfold entered, st0 in Hrange. sproj. rewrite !next_alloc in Hrange.
  assert (Routes st0 canvasId functionName ref o h) as Hroute0
    by by eapply Routes_ext; [..|exact Hroute].
  destruct (call_then_in_flight st0 canvasId functionName args ref o h q st2
              (next (promises st))
              (CreateImageThen canvasId imgFormat (next (promises st))))
    as (st3 & st4 & Hcall & Hthen & Hfl & _);
    [done|done|apply deref_alloc_eq
    |unfold st0; sproj; heap_simpl; lia|done|done
    |unfold st0; sproj; heap_simpl; lia|].
  assert (next (promises st0) < q < next (promises st2)) as Hrange0
    by (unfold st0; sproj; heap_simpl; lia).
  destruct (call_then_frame st0 canvasId functionName args ref o h q st2
              (CreateImageThen canvasId imgFormat (next (promises st)))
              Hroute0 Hrun Hq Hrange0 _ _ _ Hcall Hthen) as [Hnext Hframe].
  exists q, (next (promises st2)), st4.
  unfold _createImage, new_promise, bind at 1 2. fold st0.
  rewrite Hcall. unfold bind, ret, modify. rewrite Hthen.
  split; [reflexivity|]. split; [exact Hfl|]. split; [lia|]. split; [exact Hnext|].
  intros l Hl. rewrite Hframe by (unfold st0; sproj; heap_simpl; lia).
  unfold st0. sproj. by rewrite deref_alloc_ne by lia.
Qed.

(** X12: two dispatches of [_createImage] in flight at the same time are
    settled separately: when the promise of the second handler is
    fulfilled first, the second dispatch promise is fulfilled with the
    data of the second handler while the first one stays pending, and the
    later fulfilment of the first handler's promise gives the first
    dispatch its own data and leaves the second one as it is. *)
Theorem X12_dispatches_in_flight_settle_separately
    st canvasId1 functionName1 imgFormat1 args1 ref1 o1 h1
       canvasId2 functionName2 imgFormat2 args2 ref2 o2 h2 v1 v2 fuel :
  Routes st canvasId1 functionName1 ref1 o1 h1 -> Async h1 -> jobs st = [] ->
  Async h2 -> as_thenable v1 = None -> as_thenable v2 = None -> 2 <= fuel ->
  let (outer1, st1) := _createImage canvasId1 functionName1 imgFormat1 args1 st in
  Routes st1 canvasId2 functionName2 ref2 o2 h2 ->
  let (outer2, st2) := _createImage canvasId2 functionName2 imgFormat2 args2 st1 in
  forall r1 c1 r2 c2,
  _getCanvasInstanceById canvasId1 st2 = Some (AnInstance r1 c1) ->
  _getCanvasInstanceById canvasId2 st2 = Some (AnInstance r2 c2) ->
  exists p1 q1 d1 p2 q2 d2,
    InFlight st2 outer1 p1 q1 d1 (CreateImageThen canvasId1 imgFormat1 outer1) /\
    InFlight st2 outer2 p2 q2 d2 (CreateImageThen canvasId2 imgFormat2 outer2) /\
    outer1 <> outer2 /\ q1 <> q2 /\
    let mime f := if String.eqb f "png" then "image/png" else "image/jpeg" in
    let st3 := step toDataURL fuel (Settle q2 (Ful v2)) st2 in
    let st4 := step toDataURL fuel (Settle q1 (Ful v1)) st3 in
    state_of_promise st3 outer2
      = Some (Fulfilled
                (VObj [("_strImage",
                        VStr (toDataURL (bitmap st2 (el (canvas c2))) (mime imgFormat2)));
                       ("data", v2)])) /\
    state_of_promise st3 outer1 = Some Pending /\
    state_of_promise st4 outer1
      = Some (Fulfilled
                (VObj [("_strImage",
                        VStr (toDataURL (bitmap st2 (el (canvas c1))) (mime imgFormat1)));
                       ("data", v1)])) /\
    state_of_promise st4 outer2 = state_of_promise st3 outer2.
Proof.
  intros Hroute1 Hasync1 Hquiet Hasync2 Hv1 Hv2 Hfuel.
  destruct (createImage_in_flight_frame st canvasId1 functionName1 imgFormat1 args1
              ref1 o1 h1) as (q1 & d1 & st1 & -> & Hfl1 & Hr1 & Hn1 & _); [done..|].
  intros Hroute2.
  destruct (createImage_in_flight_frame st1 canvasId2 functionName2 imgFormat2 args2
              ref2 o2 h2) as (q2 & d2 & st2 & -> & Hfl2 & Hr2 & Hn2 & Hframe);
    [done|done|by eapply InFlight_quiet|].
  intros r1 c1 r2 c2 Hget1 Hget2.
  set (n := next (promises st)) in *. rewrite Hn1 in *.
  assert (InFlight st2 n (S n) q1 d1 (CreateImageThen canvasId1 imgFormat1 n)) as Hfl1'.
  { destruct Hfl1 as [Ho Hp Hq Hd Hdis Hj].
    split; [rewrite Hframe by lia; done..|done|by eapply InFlight_quiet]. }
  exists (S n), q1, d1, (S (S d1)), q2, d2.
  split; [exact Hfl1'|]. split; [exact Hfl2|]. split; [lia|]. split; [lia|].
  cbv zeta.
  rewrite (in_flight_createImage_fulfilled _ _ _ _ _ _ _ _ _ _ _ _ Hfl2 Hfuel Hv2 Hget2).
  set (st3 := set_jobs [] _).
  assert (InFlight st3 n (S n) q1 d1 (CreateImageThen canvasId1 imgFormat1 n)) as Hfl1''.
  { destruct Hfl1' as [Ho Hp Hq Hd Hdis Hj].
    split; unfold st3; sproj; [rewrite !deref_store_ne by lia; done..|done|done]. }
  assert (_getCanvasInstanceById canvasId1 st3 = Some (AnInstance r1 c1)) as Hget1'
    by exact Hget1.
  rewrite (in_flight_createImage_fulfilled _ _ _ _ _ _ _ _ _ _ _ _ Hfl1'' Hfuel Hv1 Hget1').
  destruct Hfl1' as [Ho Hp Hq Hd Hdis Hj].
  unfold state_of_promise, st3. sproj. repeat split.
  - rewrite deref_store_ne by lia. by rewrite deref_store_eq.
  - rewrite !deref_store_ne by lia. by rewrite Ho.
  - rewrite deref_store_ne by lia. by rewrite deref_store_eq.
  - by rewrite !(deref_store_ne _ _ (S d1)) by lia.
Qed.

(** *** The value a dispatch gives back *)








End Dispatches.

(** ** The further properties on the example page *)

Section MoreExamples.
Local Open Scope string_scope.
Local Open Scope list_scope.

Lemma X1_witness :
  Host._getImageSourceFromBase64Str rt0
    (VStr (Host._getBase64StrFromImageSource rt0 7 (Some "jpg")))
  = Normal (VNative (NImageSource 4)).
Proof. exact (X1_encode_then_decode rt0 7 (Some "jpg") eq_refl). Defined.

Lemma X2_witness :
  Host.setImage rt0 {| Host.canvasId := "canvasEle" |} "setCanvasImage"
    (VNative (NImageView (Some 7))) (Some [VNum 5]) (Some "jpg") []
  = (Host.PromiseOfCall 0,
     [{| Host.functionName := "NSCanvasInterface._setImage";
         Host.callArgs := [VStr "canvasEle"; VStr "setCanvasImage";
                           VStr "data:image/jpeg;base64,jpeg"; VNum 5] |}]).
Proof.
  exact (X2_setImage_sends_image_source rt0 {| Host.canvasId := "canvasEle" |}
           "setCanvasImage" _ 7 (Some [VNum 5]) (Some "jpg") [] (or_intror eq_refl)).
Defined.

Lemma X3_witness :
  Host.setImage rt0 {| Host.canvasId := "canvasEle" |} "setCanvasImage"
    (VStr "a.jpg") None (Some "png") []
  = (Host.PromiseOfCall 0,
     [{| Host.functionName := "NSCanvasInterface._setImage";
         Host.callArgs := [VStr "canvasEle"; VStr "setCanvasImage";
                           VStr "data:image/png;base64,png"] |}]).
Proof.
  apply (X3_setImage_explicit_format_wins rt0 {| Host.canvasId := "canvasEle" |}
           "setCanvasImage" "a.jpg" "png" None 5 []); [discriminate|discriminate|reflexivity].
Defined.

Lemma X4_witness :
  Host.setImage rt0 {| Host.canvasId := "canvasEle" |} "setCanvasImage"
    (VStr "a.jpg") None (Some "") []
  = (Host.PromiseOfCall 0,
     [{| Host.functionName := "NSCanvasInterface._setImage";
         Host.callArgs := [VStr "canvasEle"; VStr "setCanvasImage";
                           VStr "data:image/jpeg;base64,jpeg"] |}]).
Proof.
  apply (X4_setImage_empty_format_infers_extension rt0 {| Host.canvasId := "canvasEle" |}
           "setCanvasImage" "a.jpg" "jpg" None 5 []); [discriminate|reflexivity|].
  left. exists "a". split; reflexivity.
Defined.

Lemma X5_witness :
  Host.setImage rt_strict {| Host.canvasId := "canvasEle" |} "setCanvasImage"
    (VStr "missing.png") None None []
  = (Host.PromiseReject Host.InvalidImageSource, []).
Proof.
  apply X5_setImage_rejects_unloadable. right. exists "missing.png".
  split; reflexivity.
Defined.

Lemma X6_witness :
  Host.settle rt0 (Host.Success (VObj [("_strImage", VStr "data:image/png;base64,QUFB");
                                       ("data", VNum 0)]))
  = Fulfilled (VObj [("image", VNative (NImageSource 4)); ("data", VNull)]).
Proof.
  exact (X6_response_image_decoded rt0
           (VObj [("_strImage", VStr "data:image/png;base64,QUFB"); ("data", VNum 0)])
           "data:image/png;base64" "QUFB" (VNative (NImageSource 4))
           eq_refl eq_refl eq_refl eq_refl eq_refl).
Defined.

Lemma X7_witness :
  Host.settle rt_strict (Host.Success (VObj [("_strImage", VStr "QUFB")])) = Pending.
Proof.
  apply X7_response_decode_failure_leaves_pending; [reflexivity|].
  left. exists "QUFB", (VStr "not a string"). repeat split. discriminate.
Defined.

Lemma studio_routes_paint : Routes studio "canvasEle" "paint" 0 interfaceS paint.
Proof. split; reflexivity. Qed.

Lemma page_routes_broken : Routes page "canvasEle" "broken" 0 interfaceA broken.
Proof. split; reflexivity. Qed.

Lemma X8_witness :
  let (outer, st1) := _createImage "canvasEle" "paint" "jpg" [] studio in
  state_of_promise (drain toDataURL0 2 st1) outer
    = Some (Fulfilled (VObj [("_strImage", VStr "data:image/jpeg;base64,QUFB");
                             ("data", VStr "ok")])) /\
  jobs (drain toDataURL0 2 st1) = [] /\
  invocations (drain toDataURL0 2 st1) = [invocation 0 interfaceS "paint" []].
Proof.
  exact (X8_createImage_plain_value toDataURL0 studio "canvasEle" "paint" "jpg" []
           0 interfaceS paint (VStr "ok")
           (snd (run_body (paint (actuals interfaceS []))
                   (entered 0 interfaceS "paint" [] (snd (new_promise Pending studio)))))
           0 interfaceS 2
           studio_routes_paint eq_refl eq_refl eq_refl eq_refl (le_n 2)).
Defined.

Lemma X9_witness :
  let (outer, st1) := _setImage "canvasEle" "zero" "data:image/png;base64,QUJD" [] page in
  let st2 := step toDataURL0 2 (ImageLoaded (next (images page))) st1 in
  state_of_promise st2 outer = Some (Fulfilled VUndefined) /\
  jobs st2 = [] /\
  invocations st2 = [invocation 0 interfaceA "zero" [VNative (NImageElement 0)]].
Proof.
  exact (X9_setImage_plain_value toDataURL0 page "canvasEle" "zero"
           "data:image/png;base64,QUJD" [] 0 interfaceA zero (VNum 0) 2
           page_routes_zero eq_refl (fun _ => eq_refl) eq_refl (le_n 2)).
Defined.

Lemma X10_witness :
  let (outer, st1) := _setImage "canvasEle" "later" "data:image/png;base64,QUJD" [] page in
  let st1' := step toDataURL0 2 (ImageLoaded (next (images page))) st1 in
  exists p q d,
    InFlight st1' outer p q d (SetImageThen outer) /\
    state_of_promise st1' outer = Some Pending /\
    let st2 := step toDataURL0 2 (Settle q (Ful (VStr "ok"))) st1' in
    state_of_promise st2 outer = Some (Fulfilled (VStr "ok")) /\
    state_of_promise st2 p = Some (Fulfilled (VStr "ok")) /\
    jobs st2 = [] /\ invocations st2 = invocations st1'.
Proof.
  exact (X10_setImage_promise_fulfilled toDataURL0 page "canvasEle" "later"
           "data:image/png;base64,QUJD" [] 0 interfaceA later (VStr "ok") 2
           page_routes_later later_async eq_refl eq_refl (le_n 2)).
Defined.

Lemma X11_witness :
  let (outer, st1) := _createImage "canvasEle" "broken" "png" [] page in
  let st2 := drain toDataURL0 1 st1 in
  exists p d,
    state_of_promise st2 p = Some (Rejected (VStr "oops")) /\
    unhandled_rejection st2 d (VStr "oops") /\
    state_of_promise st2 outer = Some Pending /\ jobs st2 = [] /\
    (forall evs, Forall (spares outer) evs ->
       state_of_promise (run toDataURL0 1 evs st2) outer = Some Pending).
Proof.
  destruct (X11_handler_exception_is_lost toDataURL0 page "canvasEle" "broken" "png"
              "data:image/png;base64,QUJD" [] 0 interfaceA broken (VStr "oops") 1
              page_routes_broken eq_refl (le_n 1) (fun _ _ => eq_refl)) as [H _].
  destruct (_createImage "canvasEle" "broken" "png" [] page) as [outer st1].
  destruct H as (p & d & Hp & Hd & Ho & Hj & Hever).
  exists p, d. cbv zeta. do 4 (split; [done|]).
  intros evs Hevs. apply Hever; [apply page_unheld|exact Hevs].
Defined.

Lemma X13_witness :
  let st1 := snd (_createImage "canvasEle" "broken" "png" [VNum 7] page) in
  invocations st1 = [invocation 0 interfaceA "broken" [VNum 7]] /\
  inv_args (invocation 0 interfaceA "broken" [VNum 7])
    = [VNative (NCanvas 0); VNative (NContext2D 0); VNum 7] /\
  invocations (run toDataURL0 2 [Settle 1 (Ful (VStr "x")); Construct canvasB]
                 (drain toDataURL0 2 st1)) = invocations st1.
Proof.
  apply (X13_createImage_calls_handler_once toDataURL0 page "canvasEle" "broken" "png"
           [VNum 7] 0 interfaceA broken 2 [Settle 1 (Ful (VStr "x")); Construct canvasB]
           page_routes_broken).
  repeat constructor.
Defined.

Lemma X14_witness :
  let (outer, st1) := _setImage "canvasEle" "zero" "data:image/png;base64,QUJD" [] initial in
  let st' := register 0 handlers (snd (constructor canvasA st1)) in
  invocations (step toDataURL0 2 (ImageLoaded 0) st')
  = [invocation 0 interfaceA "zero" [VNative (NImageElement 0)]].
Proof.
  pose proof (X14_setImage_binds_at_load toDataURL0 initial "canvasEle" "zero"
                "data:image/png;base64,QUJD" []
                (register 0 handlers
                   (snd (constructor canvasA
                           (snd (_setImage "canvasEle" "zero"
                                   "data:image/png;base64,QUJD" [] initial))))) 2) as H.
  destruct (H eq_refl) as [Hload _].
  apply (Hload 0 interfaceA zero). split; reflexivity.
Defined.

Lemma X12_witness :
  let (outer1, st1) := _createImage "canvasEle" "later" "png" [VNum 1] page in
  let (outer2, st2) := _createImage "canvasEle" "later" "jpeg" [VNum 2] st1 in
  exists p1 q1 d1 p2 q2 d2,
    InFlight st2 outer1 p1 q1 d1 (CreateImageThen "canvasEle" "png" outer1) /\
    InFlight st2 outer2 p2 q2 d2 (CreateImageThen "canvasEle" "jpeg" outer2) /\
    outer1 <> outer2 /\ q1 <> q2 /\
    let st3 := step toDataURL0 2 (Settle q2 (Ful (VStr "second"))) st2 in
    let st4 := step toDataURL0 2 (Settle q1 (Ful (VStr "first"))) st3 in
    state_of_promise st3 outer2
      = Some (Fulfilled (VObj [("_strImage", VStr "data:image/jpeg;base64,QUFB");
                               ("data", VStr "second")])) /\
    state_of_promise st3 outer1 = Some Pending /\
    state_of_promise st4 outer1
      = Some (Fulfilled (VObj [("_strImage", VStr "data:image/png;base64,QUFB");
                               ("data", VStr "first")])) /\
    state_of_promise st4 outer2 = state_of_promise st3 outer2.
Proof.
  pose proof (X12_dispatches_in_flight_settle_separately toDataURL0 page
                "canvasEle" "later" "png" [VNum 1] 0 interfaceA later
                "canvasEle" "later" "jpeg" [VNum 2] 0 interfaceA later
                (VStr "first") (VStr "second") 2
                page_routes_later later_async eq_refl later_async eq_refl eq_refl
                (le_n 2)) as H.
  destruct (_createImage "canvasEle" "later" "png" [VNum 1] page) as [outer1 st1] eqn:E1.
  apply (f_equal snd) in E1. cbn [snd] in E1. subst st1.
  specialize (H ltac:(split; reflexivity)).
  destruct (_createImage "canvasEle" "later" "jpeg" [VNum 2] _) as [outer2 st2] eqn:E2.
  apply (f_equal snd) in E2. cbn [snd] in E2. subst st2.
  exact (H 0 interfaceA 0 interfaceA eq_refl eq_refl).
Defined.




(** A canvas whose id is [__proto__] becomes the prototype of the table:
    it is found under that id, and its own properties are inherited by the
    table. *)
Example canvas_named_proto :
  let c := {| el := 2; id := "__proto__" |} in
  let st := snd (constructor c page) in
  _getCanvasInstanceById "__proto__" page = Some Inherited /\
  _getCanvasInstanceById "canvas" page = None /\
  _canvasInterfaceInstanceMap st !! "__proto__" = None /\
  _getCanvasInstanceById "__proto__" st
    = Some (AnInstance 1 {| canvas := c; canvasReqHandlers := ∅ |}) /\
  _getCanvasInstanceById "canvas" st = Some Inherited /\
  _getCanvasInstanceById "canvasEle" st = Some (AnInstance 0 interfaceA).
Proof. vm_compute. repeat split. Qed.

(** The members of [Object.prototype] as handlers: [toString] gives a
    string and the dispatch is fulfilled; [__proto__] is no function, the
    executor throws, and the dispatch promise stays pending. *)
Example inherited_handlers :
  (let st := run toDataURL0 2 [CallCreateImage "canvasEle" "toString" "png" []] page in
   exists text,
     state_of_promise st 0
     = Some (Fulfilled (VObj [("_strImage", VStr "data:image/png;base64,");
                              ("data", VStr text)]))) /\
  (let st := run toDataURL0 2 [CallCreateImage "canvasEle" "__proto__" "png" []] page in
   state_of_promise st 0 = Some Pending /\ jobs st = [] /\
   invocations st = [invocation 0 interfaceA "__proto__" []]).
Proof. split; [eexists|]; vm_compute; repeat split. Qed.

End MoreExamples.
